(** * VSDL: Pedersen commitments and the delegation server

    A shallow embedding of [implementation/pedersen.js] and of the request
    handlers of [implementation/server.js], followed by the properties of
    the commitment engine, of token issuance and of token redemption.

    Conventions of the embedding.
    - A [BN] is a [Z]; [umod] is written out as [mod ec_n].
    - A JavaScript object used as a string-keyed map whose iteration order
      matters (a citizen record, the [fieldCommitments] object) is an
      association list in [Object.entries] order; property reads see own
      properties only, i.e. keys are taken not to be member names of
      [Object.prototype] ([plainKey] below).
    - [tokenStore] (a [Map]) and the two catalogs are [gmap]s.
    - A variable that holds [null] or a curve point is an [option Point].
    - An exception is the [Throw] outcome of [Result]; the randomness
      source and the mutable server globals are threaded explicitly. *)

From Stdlib Require Import ZArith Lia Ascii String.
From stdpp Require Import base numbers list strings sorting gmap.

#[local] Open Scope string_scope.
#[local] Open Scope Z_scope.
#[local] Arguments String.append !_ _ / : simpl nomatch.

(** ** JavaScript outcomes *)

Inductive JsError : Type :=
  | TypeError                 (* a property read or method call on null / undefined *)
  | LibraryError (what : string). (* an exception raised inside an external library *)

Inductive Result (A : Type) : Type :=
  | Ok (a : A)
  | Throw (e : JsError).
Arguments Ok {A} a.
Arguments Throw {A} e.

(** ** Characters that a string literal cannot hold directly *)

Definition dquote : string := String (Ascii.ascii_of_nat 34) EmptyString.

Definition backslash : string := String (Ascii.ascii_of_nat 92) EmptyString.

(** ** Hexadecimal text: [toString(16)], [padStart], [new BN(s, 16)] *)

Module Hex.

Definition hexDigit (d : Z) : ascii :=
  match d with
  | 0 => "0" | 1 => "1" | 2 => "2" | 3 => "3" | 4 => "4" | 5 => "5"
  | 6 => "6" | 7 => "7" | 8 => "8" | 9 => "9" | 10 => "a" | 11 => "b"
  | 12 => "c" | 13 => "d" | 14 => "e" | _ => "f"
  end%char.

(** Digits are produced from the least significant one, each prepended
    to the text already built; [fuel] bounds the number of digits. *)
Fixpoint toHexAux (fuel : nat) (z : Z) (acc : string) : string :=
  match fuel with
  | O => acc
  | S fuel' =>
      let acc' := String (hexDigit (z mod 16)) acc in
      if z / 16 =? 0 then acc' else toHexAux fuel' (z / 16) acc'
  end.

(** [bn.toString(16)] for a non-negative [bn]. *)
Definition toString16 (z : Z) : string :=
  toHexAux (S (Z.to_nat (Z.log2 z))) z "".

Fixpoint zeros (k : nat) : string :=
  match k with O => "" | S k' => String "0" (zeros k') end.

(** [s.padStart(width, '0')]. *)
Definition padStart (width : nat) (s : string) : string :=
  zeros (width - String.length s) ++ s.

(** [bn.toString(16).padStart(64, '0')]. *)
Definition hex64 (z : Z) : string := padStart 64 (toString16 z).

Definition hexVal (c : ascii) : option Z :=
  let n := Z.of_N (Ascii.N_of_ascii c) in
  if (48 <=? n) && (n <=? 57) then Some (n - 48)
  else if (65 <=? n) && (n <=? 70) then Some (n - 55)
  else if (97 <=? n) && (n <=? 102) then Some (n - 87)
  else None.

Fixpoint parseHexFrom (acc : Z) (s : string) : option Z :=
  match s with
  | EmptyString => Some acc
  | String c s' =>
      match hexVal c with
      | Some d => parseHexFrom (acc * 16 + d) s'
      | None => None
      end
  end.

(** [new BN(s, 16)] on a string of hexadecimal digits; [None] when the
    text holds some other character. *)
Definition parseHex (s : string) : option Z := parseHexFrom 0 s.

(** [s.slice(0, k)]. *)
Definition slice0 (k : nat) (s : string) : string := String.substring 0 k s.

End Hex.

(** ** Objects used as maps *)

(** [o[k]] on an object whose properties are listed in [Object.entries]
    order; [None] is [undefined]. *)
Fixpoint objGet {A} (o : list (string * A)) (k : string) : option A :=
  match o with
  | [] => None
  | (k', v) :: o' => if String.eqb k k' then Some v else objGet o' k
  end.

(** [o[k] = v]: an existing property keeps its place, a new one goes last. *)
Fixpoint objSet {A} (k : string) (v : A) (o : list (string * A)) : list (string * A) :=
  match o with
  | [] => [(k, v)]
  | (k', v') :: o' =>
      if String.eqb k k' then (k, v) :: o' else (k', v') :: objSet k v o'
  end.

(** [Object.keys(o)]. *)
Definition objKeys {A} (o : list (string * A)) : list string := map fst o.

(** The member names of [Object.prototype]; a key outside this list is
    read from the object itself or is [undefined]. *)
Definition objectPrototypeKeys : list string :=
  ["constructor"; "__defineGetter__"; "__defineSetter__"; "hasOwnProperty";
   "__lookupGetter__"; "__lookupSetter__"; "isPrototypeOf";
   "propertyIsEnumerable"; "toString"; "valueOf"; "__proto__";
   "toLocaleString"].

Definition plainKey (k : string) : bool :=
  negb (existsb (String.eqb k) objectPrototypeKeys).

(** ** External libraries *)

(** What the program uses of [elliptic] (the curve [ec], its points),
    of [bn.js] (through [Z]) and of [crypto]'s SHA-256. *)
Class CurveLib : Type := {
  Point : Type;
  ec_g : Point;                          (* ec.g *)
  ec_n : Z;                              (* ec.n *)
  point_inf : Point;                     (* the identity of the group *)
  point_add : Point -> Point -> Point;   (* p.add(q) *)
  point_mul : Point -> Z -> Point;       (* p.mul(k) *)
  point_eq : Point -> Point -> bool;     (* p.eq(q) *)
  point_getX : Point -> option Z;        (* p.getX(), None when the call throws *)
  point_getY : Point -> option Z;        (* p.getY(), None when the call throws *)
  point_encode : Point -> string;        (* p.encode('hex', true) *)
  sha256 : string -> Z                   (* the digest, read as a big-endian integer *)
}.

(** The part of the group contract the proofs rely on. *)
Class CurveLaws (E : CurveLib) : Prop := {
  point_add_assoc : forall p q r : Point,
    point_add p (point_add q r) = point_add (point_add p q) r;
  point_add_comm : forall p q : Point, point_add p q = point_add q p;
  point_eq_true : forall p q : Point, point_eq p q = true <-> p = q;
  ec_n_pos : 0 < ec_n
}.

(** ** The randomness source *)

(** [draws] lists what successive calls of [crypto.randomBytes] return,
    each read as a big-endian integer; [used] counts the calls made. *)
Record Rng : Type := { draws : nat -> Z; used : nat }.

(** Code that may throw while it updates a state of type [S]. *)
Definition StateErr (S A : Type) : Type := S -> Result A * S.

Definition ret {S A} (a : A) : StateErr S A := fun g => (Ok a, g).

Definition raise {S A} (e : JsError) : StateErr S A := fun g => (Throw e, g).

Definition bindM {S A B} (c : StateErr S A) (k : A -> StateErr S B) : StateErr S B :=
  fun g => match c g with
           | (Ok a, g') => k a g'
           | (Throw e, g') => (Throw e, g')
           end.

(** Code that only consumes randomness. *)
Definition M (A : Type) : Type := StateErr Rng A.

Definition bindR {A B} (c : Result A) (k : A -> Result B) : Result B :=
  match c with Ok a => k a | Throw e => Throw e end.

Definition liftR {S A} (c : Result A) : StateErr S A := fun g => (c, g).

Notation "'let*' x ':=' c 'in' k" := (bindM c (fun x => k))
  (at level 10, x name, c at level 100, k at level 200, only parsing).
Notation "'let?' x ':=' c 'in' k" := (bindR c (fun x => k))
  (at level 10, x name, c at level 100, k at level 200, only parsing).

(** [crypto.randomBytes(k)]. *)
Definition randomBytes (k : nat) : M Z :=
  fun g => (Ok (draws g (used g) mod 2 ^ (8 * Z.of_nat k)),
            {| draws := draws g; used := S (used g) |}).

(** * pedersen.js *)

(** ** The objects the functions build

    The records that hold curve points are stated for any type [P] of
    points and used at the [Point] of the curve library. *)

(** The pair [{x: p.getX().toString(16).padStart(64,'0'), y: ...}]. *)
Record PointHex : Type := { ph_x : string; ph_y : string }.

(** The [math] object of a field commitment. *)
Record FieldMath : Type := {
  fm_message : string;
  fm_m : string;
  fm_r : string;
  fm_gm : PointHex;
  fm_hr : PointHex;
  fm_C : PointHex;
  fm_formula : string
}.

Record FieldCommitmentOf {P : Type} : Type := {
  fc_fieldName : string;
  fc_value : string;
  fc_commitment : P;
  fc_randomness : Z;
  fc_math : FieldMath
}.

(** The variables the loop of [commitRecord] updates. *)
Record CommitLoopOf {P : Type} : Type := {
  cl_fieldCommitments : list (string * @FieldCommitmentOf P);
  cl_totalM : Z;
  cl_totalR : Z;
  cl_recordCommitment : option P
}.

Record RecordMath : Type := {
  rm_formula : string;
  rm_totalM : string;
  rm_totalR : string;
  rm_C_D : PointHex;
  rm_fieldCount : nat
}.

Record RecordCommitmentOf {P : Type} : Type := {
  recordCommitment : P;
  fieldCommitments : list (string * @FieldCommitmentOf P);
  rc_math : RecordMath
}.

Record SubsetCommitmentOf {P : Type} : Type := {
  sc_commitment : option P;
  sc_included : list string
}.

(** The [math] object of [verifyPartition]. *)
Record PartitionMath : Type := {
  pm_equation : string;
  pm_verification : string;
  pm_result : string;
  pm_C_D : PointHex;
  pm_C_H : PointHex;
  pm_C_F : PointHex;
  pm_sum : PointHex
}.

Record PartitionResult : Type := { valid : bool; pr_math : PartitionMath }.

(** An entry of the [visibleFields] array of a proof. *)
Record Opening : Type := {
  op_fieldName : string;
  op_value : string;
  op_randomness : string
}.

Record RecomputeDetail : Type := {
  rd_field : string;
  rd_m : string;
  rd_r : string;
  rd_C : string
}.

Record RecomputedOf {P : Type} : Type := {
  rc_commitment : option P;
  rc_details : list RecomputeDetail
}.

Record SerializedPoint : Type := {
  sp_x : string;
  sp_y : string;
  sp_compressed : string
}.

Abbreviation FieldCommitment := (@FieldCommitmentOf Point).
Abbreviation CommitLoop := (@CommitLoopOf Point).
Abbreviation RecordCommitment := (@RecordCommitmentOf Point).
Abbreviation SubsetCommitment := (@SubsetCommitmentOf Point).
Abbreviation Recomputed := (@RecomputedOf Point).

(** ** The functions *)

Section Pedersen.
Context {E : CurveLib}.

Definition G : Point := ec_g.

Definition H_seed : Z := sha256 "VSDL_GENERATOR_H_SEED_V1".

Definition H : Point := point_mul ec_g H_seed.

Definition hashToScalar (data : string) : Z := sha256 data mod ec_n.

Definition randomScalar : M Z :=
  let* bytes := randomBytes 32 in ret (bytes mod ec_n).

Definition coordsHex (p : Point) : Result PointHex :=
  match point_getX p with
  | None => Throw (LibraryError "getX")
  | Some x =>
      match point_getY p with
      | None => Throw (LibraryError "getY")
      | Some y => Ok {| ph_x := Hex.hex64 x; ph_y := Hex.hex64 y |}
      end
  end.

(** The template [`${fieldName}||${value}`]. *)
Definition fieldMessage (fieldName value : string) : string :=
  (fieldName ++ "||" ++ value)%string.

(** [commitField(fieldName, value, r = null)]; a [BN] is an object and so
    truthy, hence [r || randomScalar()] draws only when [r] is [null]. *)
Definition commitField (fieldName value : string) (r : option Z) : M FieldCommitment :=
  let* randomness := match r with Some r' => ret r' | None => randomScalar end in
  let message := fieldMessage fieldName value in
  let m := hashToScalar message in
  let gm := point_mul G m in
  let hr := point_mul H randomness in
  let C := point_add gm hr in
  let* gmHex := liftR (coordsHex gm) in
  let* hrHex := liftR (coordsHex hr) in
  let* CHex := liftR (coordsHex C) in
  ret {| fc_fieldName := fieldName;
         fc_value := value;
         fc_commitment := C;
         fc_randomness := randomness;
         fc_math := {| fm_message := message;
                       fm_m := Hex.hex64 m;
                       fm_r := Hex.hex64 randomness;
                       fm_gm := gmHex; fm_hr := hrHex; fm_C := CHex;
                       fm_formula :=
                         ("C = g^H(" ++ dquote ++ message ++ dquote
                          ++ ") · h^r")%string |} |}.

(** [acc === null ? c : acc.add(c)] *)
Definition accumulate (acc : option Point) (c : Point) : Point :=
  match acc with
  | None => c
  | Some a => point_add a c
  end.

Definition commitLoopInit : CommitLoop :=
  {| cl_fieldCommitments := []; cl_totalM := 0; cl_totalR := 0;
     cl_recordCommitment := None |}.

Fixpoint commitRecordLoop (fields : list (string * string)) (st : CommitLoop)
  : M CommitLoop :=
  match fields with
  | [] => ret st
  | (fieldName, value) :: rest =>
      let* fc := commitField fieldName value None in
      commitRecordLoop rest
        {| cl_fieldCommitments := objSet fieldName fc (cl_fieldCommitments st);
           cl_totalM :=
             (cl_totalM st + hashToScalar (fieldMessage fieldName value)) mod ec_n;
           cl_totalR := (cl_totalR st + fc_randomness fc) mod ec_n;
           cl_recordCommitment :=
             Some (accumulate (cl_recordCommitment st) (fc_commitment fc)) |}
  end.

(** [commitRecord(record)], [record] given by its [Object.entries]. The
    returned object is built only after [recordCommitment.getX()] has been
    evaluated, so a result always carries a point. *)
Definition commitRecord (record : list (string * string)) : M RecordCommitment :=
  let* st := commitRecordLoop record commitLoopInit in
  match cl_recordCommitment st with
  | None => raise TypeError
  | Some c =>
      let* C_D := liftR (coordsHex c) in
      ret {| recordCommitment := c;
             fieldCommitments := cl_fieldCommitments st;
             rc_math := {| rm_formula :=
                             "C_D = ∏ C_{f_i,v_i} = g^{Σm_i} · h^{Σr_i}";
                           rm_totalM := Hex.hex64 (cl_totalM st);
                           rm_totalR := Hex.hex64 (cl_totalR st);
                           rm_C_D := C_D;
                           rm_fieldCount := length record |} |}
  end.

Fixpoint subsetLoop (fcs : list (string * FieldCommitment)) (fieldNames : list string)
    (commitment : option Point) (included : list string) : SubsetCommitment :=
  match fieldNames with
  | [] => {| sc_commitment := commitment; sc_included := included |}
  | name :: rest =>
      match objGet fcs name with
      | Some fc =>
          subsetLoop fcs rest (Some (accumulate commitment (fc_commitment fc)))
            (included ++ [name])
      | None => subsetLoop fcs rest commitment included
      end
  end.

Definition computeSubsetCommitment (fcs : list (string * FieldCommitment))
    (fieldNames : list string) : SubsetCommitment :=
  subsetLoop fcs fieldNames None [].

(** [verifyPartition(C_D, C_H, C_F)]. With [C_H] null, [C_H.add] is a
    call on null. With [C_F] null the library is handed null and, whatever
    it does with it, [C_F.getX()] below is a call on null. With [C_D] null,
    [C_D.eq] is a call on null. *)
Definition verifyPartition (C_D C_H C_F : option Point) : Result PartitionResult :=
  match C_H, C_F, C_D with
  | Some h, Some f, Some d =>
      let sum := point_add h f in
      let valid := point_eq d sum in
      let? dHex := coordsHex d in
      let? hHex := coordsHex h in
      let? fHex := coordsHex f in
      let? sHex := coordsHex sum in
      Ok {| valid := valid;
            pr_math := {| pm_equation := "C_D = C_H · C_F";
                          pm_verification := "C_H + C_F = C_D ?";
                          pm_result :=
                            if valid then "EQUAL ✓" else "NOT EQUAL ✗";
                          pm_C_D := dHex; pm_C_H := hHex; pm_C_F := fHex;
                          pm_sum := sHex |} |}
  | _, _, _ => Throw TypeError
  end.

Fixpoint recomputeLoop (fields : list Opening) (commitment : option Point)
    (details : list RecomputeDetail) : Result Recomputed :=
  match fields with
  | [] => Ok {| rc_commitment := commitment; rc_details := details |}
  | o :: rest =>
      match Hex.parseHex (op_randomness o) with
      | None => Throw (LibraryError "BN")
      | Some r =>
          let m := hashToScalar (fieldMessage (op_fieldName o) (op_value o)) in
          let gm := point_mul G m in
          let hr := point_mul H r in
          let C := point_add gm hr in
          match point_getX C with
          | None => Throw (LibraryError "getX")
          | Some x =>
              recomputeLoop rest (Some (accumulate commitment C))
                (details ++
                 [{| rd_field := op_fieldName o;
                     rd_m := (Hex.slice0 16 (Hex.toString16 m) ++ "...")%string;
                     rd_r := (Hex.slice0 16 (op_randomness o) ++ "...")%string;
                     rd_C := (Hex.slice0 16 (Hex.toString16 x) ++ "...")%string |}])
          end
      end
  end.

Definition recomputeCommitment (fields : list Opening) : Result Recomputed :=
  recomputeLoop fields None [].

Definition serializePoint (point : option Point) : Result SerializedPoint :=
  match point with
  | None => Throw TypeError
  | Some p =>
      let? xy := coordsHex p in
      Ok {| sp_x := ph_x xy; sp_y := ph_y xy; sp_compressed := point_encode p |}
  end.

Definition serializeBN (bn : Z) : string := Hex.hex64 bn.

Definition deserializeBN (hex : string) : option Z := Hex.parseHex hex.

End Pedersen.

(** * server.js *)

(** ** [Array.prototype.sort()] and [JSON.stringify] on arrays of strings *)

Fixpoint insertSorted (s : string) (l : list string) : list string :=
  match l with
  | [] => [s]
  | x :: l' => if String.leb s x then s :: l else x :: insertSorted s l'
  end.

(** [a.sort()] with the default comparison, which orders strings by their
    code units; the comparison being a total order, the sorted array does
    not depend on the sorting algorithm. *)
Definition arraySort (a : list string) : list string := foldr insertSorted [] a.

Definition jsonEscapeChar (c : ascii) : string :=
  let n := Ascii.nat_of_ascii c in
  if Nat.eqb n 34 then (backslash ++ dquote)%string
  else if Nat.eqb n 92 then (backslash ++ backslash)%string
  else if Nat.eqb n 8 then (backslash ++ "b")%string
  else if Nat.eqb n 9 then (backslash ++ "t")%string
  else if Nat.eqb n 10 then (backslash ++ "n")%string
  else if Nat.eqb n 12 then (backslash ++ "f")%string
  else if Nat.eqb n 13 then (backslash ++ "r")%string
  else if Nat.ltb n 32 then
    (backslash ++ "u00"
     ++ String (Hex.hexDigit (Z.of_nat n / 16))
          (String (Hex.hexDigit (Z.of_nat n mod 16)) EmptyString))%string
  else String c EmptyString.

Fixpoint jsonEscape (s : string) : string :=
  match s with
  | EmptyString => EmptyString
  | String c s' => (jsonEscapeChar c ++ jsonEscape s')%string
  end.

Definition jsonString (s : string) : string :=
  (dquote ++ jsonEscape s ++ dquote)%string.

Fixpoint jsonItems (l : list string) : string :=
  match l with
  | [] => EmptyString
  | [s] => jsonString s
  | s :: l' => (jsonString s ++ "," ++ jsonItems l')%string
  end.

Definition jsonArray (l : list string) : string := ("[" ++ jsonItems l ++ "]")%string.

(** [JSON.stringify({visible: v, hidden: h})]. *)
Definition policyJson (v h : list string) : string :=
  ("{" ++ jsonString "visible" ++ ":" ++ jsonArray v ++ ","
   ++ jsonString "hidden" ++ ":" ++ jsonArray h ++ "}")%string.

(** ** Data held by the server *)

Record Policy : Type := {
  p_name : string;
  p_description : string;
  visibleFields : list string;
  hiddenFields : list string;
  allowedActions : list string
}.

Record JwtPayload : Type := {
  jti : string;
  sub : string;
  jp_policy : string;
  jp_policyHash : string;
  jp_commitment : string;
  jp_actions : list string
}.

(** What the handlers use of [jsonwebtoken] and of the JavaScript runtime.
    [jwt_sign payload secret expiresIn now] is
    [jwt.sign(payload, secret, {expiresIn, issuer: 'vsdl-gov-portal'})];
    [jwt_verify token secret now] is [jwt.verify(token, secret)], with the
    message of the exception on the left. *)
Class ServerLibs : Type := {
  jwt_sign : JwtPayload -> string -> Z -> Z -> Result string;
  jwt_verify : string -> string -> Z -> string + JwtPayload;
  encodeURIComponent : string -> string;
  toISOString : Z -> string
}.

Definition citizenDB0 : gmap string (list (string * string)) :=
  {[ "citizen-001" :=
       [("name", "Ahmed Ali Mohammed");
        ("nationalId", "1087654321");
        ("dateOfBirth", "1965-03-15");
        ("address", "King Fahd Road, Riyadh 12345");
        ("phone", "+966501234567");
        ("email", "ahmed@email.com");
        ("taxRecords", "Annual Income: 180,000 SAR | Tax Paid: 4,500 SAR");
        ("bankAccount", "SA4420000001234567891234");
        ("medicalHistory",
         "Blood Type: O+ | Allergies: None | Conditions: Hypertension");
        ("propertyRecords",
         "Villa in Riyadh (2.1M SAR) | Land in Jeddah (800K SAR)")] ]}.

Definition idRenewal : Policy := {|
  p_name := "National ID Renewal";
  p_description := "Access to basic identity information for ID renewal";
  visibleFields := ["name"; "nationalId"; "dateOfBirth"; "address"];
  hiddenFields := ["phone"; "email"; "taxRecords"; "bankAccount";
                   "medicalHistory"; "propertyRecords"];
  allowedActions := ["view_id_info"; "submit_renewal_application"; "upload_photo"]
|}.

Definition taxFiling : Policy := {|
  p_name := "Tax Filing Assistance";
  p_description := "Access to financial information for tax preparation";
  visibleFields := ["name"; "nationalId"; "taxRecords"; "bankAccount"];
  hiddenFields := ["dateOfBirth"; "address"; "phone"; "email";
                   "medicalHistory"; "propertyRecords"];
  allowedActions := ["view_tax_info"; "submit_tax_return";
                     "download_tax_certificate"]
|}.

Definition medicalProxy : Policy := {|
  p_name := "Medical Appointment";
  p_description := "Access to medical information for healthcare proxy";
  visibleFields := ["name"; "nationalId"; "dateOfBirth"; "medicalHistory"];
  hiddenFields := ["address"; "phone"; "email"; "taxRecords"; "bankAccount";
                   "propertyRecords"];
  allowedActions := ["view_medical_info"; "book_appointment";
                     "view_prescriptions"]
|}.

Definition POLICIES0 : gmap string Policy :=
  <["id-renewal" := idRenewal]>
    (<["tax-filing" := taxFiling]> {[ "medical-proxy" := medicalProxy ]}).

(** An entry of [tokenStore]. [st_policy] stands for [stored.policy]:
    the handler stores the catalog entry itself, not a copy, so the field
    holds the catalog key under which that one shared object lives.
    [st_record] likewise is the record of [citizenDB], which no handler
    modifies. *)
Record StoredTokenOf {P : Type} : Type := {
  st_citizenId : string;
  st_policyId : string;
  st_record : list (string * string);
  st_policy : string;
  st_fieldCommitments : list (string * @FieldCommitmentOf P);
  st_recordCommitment : P;
  st_createdAt : Z
}.

(** The globals of the server process. *)
Record ServerStateOf {P : Type} : Type := {
  SERVER_SECRET : string;
  tokenStore : gmap string (@StoredTokenOf P);
  citizenDB : gmap string (list (string * string));
  POLICIES : gmap string Policy;
  rng : Rng
}.

Abbreviation StoredToken := (@StoredTokenOf Point).
Abbreviation ServerState := (@ServerStateOf Point).

Section Server.
Context {E : CurveLib} {L : ServerLibs}.

Definition liftRng {A} (c : M A) : StateErr ServerState A :=
  fun s =>
    match c (rng s) with
    | (r, g') =>
        (r, {| SERVER_SECRET := SERVER_SECRET s; tokenStore := tokenStore s;
               citizenDB := citizenDB s; POLICIES := POLICIES s; rng := g' |})
    end.

(** [tokenStore.set(tokenId, data)]. *)
Definition tokenStoreSet (tokenId : string) (data : StoredToken)
  : StateErr ServerState unit :=
  fun s =>
    (Ok tt, {| SERVER_SECRET := SERVER_SECRET s;
               tokenStore := <[tokenId := data]> (tokenStore s);
               citizenDB := citizenDB s; POLICIES := POLICIES s; rng := rng s |}).

(** A catalog entry once its two arrays have been sorted in place. *)
Definition sortedPolicy (policy : Policy) : Policy :=
  {| p_name := p_name policy;
     p_description := p_description policy;
     visibleFields := arraySort (visibleFields policy);
     hiddenFields := arraySort (hiddenFields policy);
     allowedActions := allowedActions policy |}.

(** [policy.visibleFields.sort()] and [policy.hiddenFields.sort()], where
    [policy] is the catalog entry [policyId]: the two arrays of that entry
    are sorted in place, and the sorted arrays are what the calls return. *)
Definition sortPolicyFields (policyId : string) (policy : Policy)
  : StateErr ServerState (list string * list string) :=
  fun s =>
    (Ok (visibleFields (sortedPolicy policy), hiddenFields (sortedPolicy policy)),
     {| SERVER_SECRET := SERVER_SECRET s; tokenStore := tokenStore s;
        citizenDB := citizenDB s;
        POLICIES := <[policyId := sortedPolicy policy]> (POLICIES s);
        rng := rng s |}).

(** [createHash('sha256').update(s).digest('hex')]. *)
Definition sha256Hex (s : string) : string := Hex.hex64 (sha256 s).

(** ** [POST /api/token/create] *)

Record CreateRequest : Type := {
  req_citizenId : string;
  req_policyId : string;
  req_expiresIn : option Z
}.

Record CreateData : Type := {
  cd_tokenId : string;
  cd_token : string;
  cd_delegationUrl : string;
  cd_expiresAt : string;
  cd_recordCommitment : SerializedPoint;
  cd_policyHash : string;
  cd_math : RecordMath;
  cd_fieldCommitments : list (string * (SerializedPoint * FieldMath));
  cd_policyName : string;
  cd_visibleFields : list string;
  cd_hiddenFields : list string;
  cd_allowedActions : list string
}.

Inductive CreateResponse : Type :=
  | Create200 (data : CreateData)
  | Create404                       (* Citizen not found *)
  | Create400                       (* Invalid policy *)
  | Create500 (e : JsError).

Fixpoint serializeFieldCommitments (fcs : list (string * FieldCommitment))
  : Result (list (string * (SerializedPoint * FieldMath))) :=
  match fcs with
  | [] => Ok []
  | (k, v) :: rest =>
      let? sp := serializePoint (Some (fc_commitment v)) in
      let? rest' := serializeFieldCommitments rest in
      Ok ((k, (sp, fc_math v)) :: rest')
  end.

(** The payload handed to [jwt.sign]. *)
Definition jwtPayloadOf (tokenId citizenId policyId policyHash compressed : string)
    (actions : list string) : JwtPayload :=
  {| jti := tokenId;
     sub := Hex.slice0 16 (sha256Hex citizenId);
     jp_policy := policyId;
     jp_policyHash := Hex.slice0 32 policyHash;
     jp_commitment := compressed;
     jp_actions := actions |}.

(** The body of the [try] block; [now] is [Date.now()]. *)
Definition tokenCreateBody (now : Z) (req : CreateRequest)
  : StateErr ServerState CreateResponse :=
  fun s0 =>
  let citizenId := req_citizenId req in
  let policyId := req_policyId req in
  let expiresIn := default 3600 (req_expiresIn req) in
  match citizenDB s0 !! citizenId with
  | None => (Ok Create404, s0)
  | Some record =>
  match POLICIES s0 !! policyId with
  | None => (Ok Create400, s0)
  | Some policy =>
     (let* idBytes := liftRng (randomBytes 16) in
      let tokenId := Hex.padStart 32 (Hex.toString16 idBytes) in
      let* commitmentResult := liftRng (commitRecord record) in
      let* _ := tokenStoreSet tokenId
                  {| st_citizenId := citizenId;
                     st_policyId := policyId;
                     st_record := record;
                     st_policy := policyId;
                     st_fieldCommitments := fieldCommitments commitmentResult;
                     st_recordCommitment := recordCommitment commitmentResult;
                     st_createdAt := now |} in
      let* sorted := sortPolicyFields policyId policy in
      let policyHash := sha256Hex (policyJson (fst sorted) (snd sorted)) in
      let* sp := liftR (serializePoint (Some (recordCommitment commitmentResult))) in
      let jwtPayload :=
        jwtPayloadOf tokenId citizenId policyId policyHash (sp_compressed sp)
          (allowedActions policy) in
      let* token := liftR (jwt_sign jwtPayload (SERVER_SECRET s0) expiresIn now) in
      let delegationUrl :=
        ("http://localhost:3000/api/delegate/" ++ encodeURIComponent token)%string in
      let* spD := liftR (serializePoint (Some (recordCommitment commitmentResult))) in
      let* fcs := liftR (serializeFieldCommitments (fieldCommitments commitmentResult)) in
      ret (Create200
             {| cd_tokenId := tokenId;
                cd_token := token;
                cd_delegationUrl := delegationUrl;
                cd_expiresAt := toISOString (now + expiresIn * 1000);
                cd_recordCommitment := spD;
                cd_policyHash := policyHash;
                cd_math := rc_math commitmentResult;
                cd_fieldCommitments := fcs;
                cd_policyName := p_name policy;
                cd_visibleFields := fst sorted;
                cd_hiddenFields := snd sorted;
                cd_allowedActions := allowedActions policy |})) s0
  end
  end.

(** The handler: an exception becomes the 500 answer; what the body had
    already written to the globals stays written. *)
Definition tokenCreate (now : Z) (req : CreateRequest) (s : ServerState)
  : CreateResponse * ServerState :=
  match tokenCreateBody now req s with
  | (Ok resp, s') => (resp, s')
  | (Throw e, s') => (Create500 e, s')
  end.

(** ** [GET /api/policies] *)

Definition getPolicies (s : ServerState) : gmap string Policy := POLICIES s.

(** ** [GET /api/delegate/:token] *)

Record DelegateProof : Type := {
  dp_recordCommitment : SerializedPoint;
  dp_hiddenCommitment : SerializedPoint;
  dp_visibleCommitment : SerializedPoint;
  dp_visibleFields : list Opening;
  dp_hiddenFieldCount : nat;
  dp_verification : PartitionMath
}.

Record DelegateData : Type := {
  filteredRecord : list (string * string);
  dd_allowedActions : list string;
  dd_proof : DelegateProof;
  dd_policyName : string;
  dd_policyHash : string
}.

Inductive DelegateResponse : Type :=
  | Delegate200 (data : DelegateData)
  | Delegate401 (details : string)   (* Invalid or expired token *)
  | Delegate404                      (* Token data not found *)
  | Delegate500 (e : JsError).

(** [record[f] !== undefined] *)
Definition inRecord (record : list (string * string)) (f : string) : bool :=
  match objGet record f with Some _ => true | None => false end.

(** The loop over [policy.visibleFields]. Reading [.randomness] off a
    missing entry of [fieldCommitments] is a read on [undefined]. *)
Fixpoint visibleLoop (record : list (string * string))
    (fcs : list (string * FieldCommitment)) (fields : list string)
    (filteredData : list (string * string)) (visibleFieldsProof : list Opening)
  : Result (list (string * string) * list Opening) :=
  match fields with
  | [] => Ok (filteredData, visibleFieldsProof)
  | field :: rest =>
      match objGet record field with
      | None => visibleLoop record fcs rest filteredData visibleFieldsProof
      | Some v =>
          match objGet fcs field with
          | None => Throw TypeError
          | Some fc =>
              visibleLoop record fcs rest (objSet field v filteredData)
                (visibleFieldsProof ++
                 [{| op_fieldName := field; op_value := v;
                     op_randomness := serializeBN (fc_randomness fc) |}])
          end
      end
  end.

(** What the handler does once [stored] has been read and
    [stored.policy] dereferenced to [policy]. *)
Definition delegateStored (payload : JwtPayload) (stored : StoredToken)
    (policy : Policy) : Result DelegateResponse :=
  let record := st_record stored in
  let fcs := st_fieldCommitments stored in
  let recordCommitment := st_recordCommitment stored in
  let? filtered := visibleLoop record fcs (visibleFields policy) [] [] in
  let hiddenFieldNames := filter (fun f => inRecord record f) (hiddenFields policy) in
  let hiddenCommitment := sc_commitment (computeSubsetCommitment fcs hiddenFieldNames) in
  let visibleCommitment :=
    sc_commitment
      (computeSubsetCommitment fcs
         (filter (fun f => inRecord record f) (visibleFields policy))) in
  let? verification :=
    verifyPartition (Some recordCommitment) hiddenCommitment visibleCommitment in
  let? spD := serializePoint (Some recordCommitment) in
  let? spH := serializePoint hiddenCommitment in
  let? spV := serializePoint visibleCommitment in
  Ok (Delegate200
        {| filteredRecord := fst filtered;
           dd_allowedActions := allowedActions policy;
           dd_proof := {| dp_recordCommitment := spD;
                          dp_hiddenCommitment := spH;
                          dp_visibleCommitment := spV;
                          dp_visibleFields := snd filtered;
                          dp_hiddenFieldCount := length hiddenFieldNames;
                          dp_verification := pr_math verification |};
           dd_policyName := p_name policy;
           dd_policyHash := jp_policyHash payload |}).

(** The body of the [try] block. A stored reference always points into
    the catalog, whose entries are never removed; the last branch is
    there only to make the function total. *)
Definition delegateBody (now : Z) (token : string) (s : ServerState)
  : Result DelegateResponse :=
  match jwt_verify token (SERVER_SECRET s) now with
  | inl message => Ok (Delegate401 message)
  | inr payload =>
      match tokenStore s !! jti payload with
      | None => Ok Delegate404
      | Some stored =>
          match POLICIES s !! st_policy stored with
          | Some policy => delegateStored payload stored policy
          | None => Throw TypeError
          end
      end
  end.

(** The handler; it writes to no global. *)
Definition delegate (now : Z) (token : string) (s : ServerState) : DelegateResponse :=
  match delegateBody now token s with
  | Ok resp => resp
  | Throw e => Delegate500 e
  end.

(** ** The server over a sequence of requests *)

Inductive Request : Type :=
  | PostTokenCreate (now : Z) (req : CreateRequest)
  | GetDelegate (now : Z) (token : string)
  | GetPolicies.

(** The globals after one request has been handled. *)
Definition serve (r : Request) (s : ServerState) : ServerState :=
  match r with
  | PostTokenCreate now req => snd (tokenCreate now req s)
  | GetDelegate _ _ => s
  | GetPolicies => s
  end.

Definition serveAll (rs : list Request) (s : ServerState) : ServerState :=
  foldl (fun s' r => serve r s') s rs.


End Server.

(** * Notions used to state the properties *)

Section Notions.
Context {E : CurveLib}.

(** [g·hashToScalar(n ∥ "||" ∥ v) + h·r] *)
Definition pedersenCommitment (n v : string) (r : Z) : Point :=
  point_add (point_mul G (hashToScalar (n ++ "||" ++ v)%string)) (point_mul H r).

(** Both coordinate accessors of the library answer on [p]. *)
Definition displayable (p : Point) : Prop :=
  is_Some (point_getX p) /\ is_Some (point_getY p).

(** Addition of points extended to variables that may hold [null], with
    [null] neutral; and the sum of a list of points, [null] when empty. *)
Definition oadd (a b : option Point) : option Point :=
  match a, b with
  | None, _ => b
  | _, None => a
  | Some x, Some y => Some (point_add x y)
  end.

Definition osum (cs : list Point) : option Point :=
  foldr (fun c acc => oadd (Some c) acc) None cs.

(** The commitments stored under the given names, unknown names skipped. *)
Definition commitmentsOf (fcs : list (string * FieldCommitment))
    (names : list string) : list Point :=
  omap (fun n => fc_commitment <$> objGet fcs n) names.

(** What an honest server discloses for the fields [V]: name, value and
    serialized blinding factor of each. *)
Definition honestOpenings (fcs : list (string * FieldCommitment))
    (V : list string) : list Opening :=
  omap (fun n =>
          (fun fc => {| op_fieldName := n; op_value := fc_value fc;
                        op_randomness := serializeBN (fc_randomness fc) |})
            <$> objGet fcs n) V.

(** [fc] is what [commitField] stores for the field [(n, v)]. *)
Definition commitsTo (n v : string) (fc : FieldCommitment) : Prop :=
  fc_fieldName fc = n /\ fc_value fc = v /\
  fc_commitment fc = pedersenCommitment n v (fc_randomness fc) /\
  displayable (fc_commitment fc).

(** What [commitRecord] has stored for one field of the record. *)
Definition storedFor (kv : string * string) (nf : string * FieldCommitment) : Prop :=
  nf.1 = kv.1 /\ commitsTo kv.1 kv.2 nf.2 /\ 0 <= fc_randomness nf.2.

(** The scalar that the [i]-th coming call of [randomScalar] returns, and
    the randomness source once [k] calls have been made. *)
Definition drawnScalar (g : Rng) (i : nat) : Z :=
  (draws g (used g + i) mod 2 ^ (8 * Z.of_nat 32)) mod ec_n.

Definition advance (g : Rng) (k : nat) : Rng :=
  {| draws := draws g; used := used g + k |}.

(** The library can display the three points [commitField] builds. *)
Definition fieldDisplayable (n v : string) (r : Z) : Prop :=
  displayable (point_mul G (hashToScalar (fieldMessage n v))) /\
  displayable (point_mul H r) /\
  displayable (pedersenCommitment n v r).

(** The fields of a policy list that the record has: the [V] and the
    [H] of a redemption. *)
Definition presentFields (record : list (string * string)) (fields : list string)
  : list string :=
  filter (fun f => inRecord record f) fields.

(** No character of [s] is a vertical bar. *)
Fixpoint barFree (s : string) : bool :=
  match s with
  | EmptyString => true
  | String c s' => negb (Ascii.eqb c "|") && barFree s'
  end.

End Notions.

(** * An instance to run the definitions on

    The additive group of residues modulo the prime 1019 with generator 1,
    a small rolling hash in place of SHA-256, coordinate accessors that
    fail on the neutral element, and tokens that are the token id followed
    by the truncated policy hash. *)

Module Residues.

Definition q : Z := 1019.

Fixpoint rollingHash (acc : Z) (s : string) : Z :=
  match s with
  | EmptyString => acc
  | String c s' =>
      rollingHash ((acc * 257 + Z.of_N (Ascii.N_of_ascii c) + 1) mod 2 ^ 256) s'
  end.

#[export] Instance curve : CurveLib := {|
  Point := Z;
  ec_g := 1;
  ec_n := q;
  point_inf := 0;
  point_add := fun a b => (a + b) mod q;
  point_mul := fun p k => (p * k) mod q;
  point_eq := Z.eqb;
  point_getX := fun p => if p =? 0 then None else Some p;
  point_getY := fun p => if p =? 0 then None else Some ((p * p + 7) mod q);
  point_encode := fun p => ("02" ++ Hex.hex64 p)%string;
  sha256 := rollingHash 7
|}.

#[export] Instance libs : ServerLibs := {|
  jwt_sign := fun payload _ _ _ => Ok (jti payload ++ jp_policyHash payload)%string;
  jwt_verify := fun token _ _ =>
    if Nat.ltb (String.length token) 64 then inl "jwt malformed"
    else inr {| jti := String.substring 0 32 token; sub := "";
                jp_policy := ""; jp_policyHash := String.substring 32 32 token;
                jp_commitment := ""; jp_actions := [] |};
  encodeURIComponent := fun s => s;
  toISOString := Hex.toString16
|}.

(** A randomness source whose [i]-th draw is [1000 + 37 i]. *)
Definition rng0 : Rng := {| draws := fun i => 1000 + 37 * Z.of_nat i; used := 0 |}.

(** The server as it starts. *)
Definition state0 : ServerState :=
  {| SERVER_SECRET := "5ec2e7"; tokenStore := ∅; citizenDB := citizenDB0;
     POLICIES := POLICIES0; rng := rng0 |}.

End Residues.

(** * Inputs used to exercise the definitions *)

Module Scenarios.
Import Residues.

Definition contact : list (string * string) :=
  [("name", "Ahmed"); ("phone", "+966501234567"); ("email", "ahmed@email.com")].

Definition nameOnly : list (string * string) := [("name", "Ahmed")].

Definition renewal : CreateRequest :=
  {| req_citizenId := "citizen-001"; req_policyId := "id-renewal";
     req_expiresIn := None |}.

(** A database whose record has a field, [passport], that no policy of
    the catalog names. *)
Definition citizenDB1 : gmap string (list (string * string)) :=
  {[ "citizen-002" :=
       [("name", "Sara"); ("phone", "+966500000000"); ("passport", "P1234567")] ]}.

Definition state1 : ServerState :=
  {| SERVER_SECRET := "5ec2e7"; tokenStore := ∅; citizenDB := citizenDB1;
     POLICIES := POLICIES0; rng := rng0 |}.

Definition renewal2 : CreateRequest :=
  {| req_citizenId := "citizen-002"; req_policyId := "id-renewal";
     req_expiresIn := None |}.

(** The token that the first issuance hands out in either state. *)
Definition token0 : string :=
  "000000000000000000000000000003e83555e21cbafc9d6c5bf8eb9f55df165b".

End Scenarios.

(** * More of the two files *)

(** ** pedersen.js: [deserializePoint]

    The two decoders of the curve library: [decodePoint s] is
    [ec.curve.decodePoint(s, 'hex')] and [curvePoint x y] is
    [ec.curve.point(x, y)]; either may throw. *)
Class PointCodec (E : CurveLib) : Type := {
  decodePoint : string -> Result Point;
  curvePoint : string -> string -> Result Point
}.

(** What [deserializePoint] is given: a string, or an object with the
    properties [x] and [y]. *)
Inductive PointData : Type :=
  | PointText (hex : string)
  | PointXY (x y : string).

Record VerifyRequest : Type := {
  vq_visibleFields : list Opening;
  vq_recordCommitment : PointData;
  vq_hiddenCommitment : PointData
}.

Record VerifyData : Type := {
  vd_valid : bool;
  vd_recomputedVisible : SerializedPoint;
  vd_recomputationDetails : list RecomputeDetail;
  vd_verification : PartitionMath;
  vd_explanation : string
}.

Inductive VerifyResponse : Type :=
  | Verify200 (data : VerifyData)
  | Verify500 (e : JsError).

Section Verification.
Context {E : CurveLib} {D : PointCodec E}.

Definition deserializePoint (data : PointData) : Result Point :=
  match data with
  | PointText hex => decodePoint hex
  | PointXY x y => curvePoint x y
  end.

(** ** server.js: [POST /api/verify] *)

(** The body of the [try] block. *)
Definition verifyBody (req : VerifyRequest) : Result VerifyResponse :=
  let? recomputed := recomputeCommitment (vq_visibleFields req) in
  let? C_D := deserializePoint (vq_recordCommitment req) in
  let? C_H := deserializePoint (vq_hiddenCommitment req) in
  let C_F := rc_commitment recomputed in
  let? verification := verifyPartition (Some C_D) (Some C_H) C_F in
  let? spF := serializePoint C_F in
  Ok (Verify200
        {| vd_valid := valid verification;
           vd_recomputedVisible := spF;
           vd_recomputationDetails := rc_details recomputed;
           vd_verification := pr_math verification;
           vd_explanation :=
             if valid verification
             then "Server correctly filtered the data. C_D = C_H · C_F holds."
             else "WARNING: Verification failed! Server may have tampered with data." |}).

Definition verify (req : VerifyRequest) : VerifyResponse :=
  match verifyBody req with
  | Ok resp => resp
  | Throw e => Verify500 e
  end.

(** The request that the page's [verifyProof()] builds from the proof of
    a redemption. *)
Definition verifyProofRequest (proof : DelegateProof) : VerifyRequest :=
  {| vq_visibleFields := dp_visibleFields proof;
     vq_recordCommitment := PointText (sp_compressed (dp_recordCommitment proof));
     vq_hiddenCommitment := PointText (sp_compressed (dp_hiddenCommitment proof)) |}.

End Verification.

(** ** Further notions and laws *)

(** Scalar multiplication in a group of order [ec_n]. *)
Class ScalarLaws (E : CurveLib) : Prop := {
  point_mul_add : forall (p : Point) (a b : Z),
    point_mul p (a + b) = point_add (point_mul p a) (point_mul p b);
  point_mul_mod : forall (p : Point) (a : Z),
    point_mul p (a mod ec_n) = point_mul p a
}.

(** Cancellation, which every group has. *)
Class Cancellative (E : CurveLib) : Prop := {
  point_add_cancel_l : forall p q r : Point, point_add p q = point_add p r -> q = r
}.

(** Multiplying a multiple of a point. *)
Class ScalarAction (E : CurveLib) : Prop := {
  point_mul_mul : forall (p : Point) (a b : Z),
    point_mul (point_mul p a) b = point_mul p (a * b)
}.

Section MoreNotions.
Context {E : CurveLib}.

(** [o[k]] is truthy. *)
Definition hasEntry {A} (o : list (string * A)) (k : string) : bool :=
  match objGet o k with Some _ => true | None => false end.

(** The point [recomputeCommitment] builds from one opening, when its
    randomness is hexadecimal text. *)
Definition openingPoint (o : Opening) : option Point :=
  match Hex.parseHex (op_randomness o) with
  | Some r =>
      Some (point_add
              (point_mul G (hashToScalar (fieldMessage (op_fieldName o) (op_value o))))
              (point_mul H r))
  | None => None
  end.

(** [recomputeCommitment] gets through the opening: its randomness
    parses and the library gives the abscissa of its point. *)
Definition openingOk (o : Opening) : Prop :=
  exists p, openingPoint o = Some p /\ is_Some (point_getX p).

(** A catalog entry that differs from [p] at most in the order of its two
    arrays. *)
Definition reordered (p p' : Policy) : Prop :=
  p_name p' = p_name p /\ p_description p' = p_description p /\
  allowedActions p' = allowedActions p /\
  visibleFields p' ≡ₚ visibleFields p /\ hiddenFields p' ≡ₚ hiddenFields p.

(** The two identifiers of an issuance request name no member of
    [Object.prototype], so that [citizenDB[citizenId]] and
    [POLICIES[policyId]] read the two objects themselves. *)
Definition plainRequest (r : Request) : bool :=
  match r with
  | PostTokenCreate _ req => plainKey (req_citizenId req) && plainKey (req_policyId req)
  | _ => true
  end.

(** The entry is one that an issuance writes: its record is the
    citizen's, its policy reference points into the catalog, and its
    commitments are those of one run of [commitRecord] on the record. *)
Definition issued (s : ServerState) (stored : StoredToken) : Prop :=
  citizenDB s !! st_citizenId stored = Some (st_record stored) /\
  st_policy stored = st_policyId stored /\
  is_Some (POLICIES s !! st_policy stored) /\
  exists g cr g',
    commitRecord (st_record stored) g = (Ok cr, g') /\
    st_fieldCommitments stored = fieldCommitments cr /\
    st_recordCommitment stored = recordCommitment cr.

End MoreNotions.

(** ** Further instances and inputs *)

Module ResiduesCodec.
Import Residues.

(** [decodePoint] reads back what [point_encode] writes. *)
#[export] Instance codec : PointCodec curve := {|
  decodePoint := fun s =>
    if String.eqb (String.substring 0 2 s) "02" then
      match Hex.parseHex (String.substring 2 (String.length s - 2) s) with
      | Some z => Ok z
      | None => Throw (LibraryError "decodePoint")
      end
    else Throw (LibraryError "decodePoint");
  curvePoint := fun x _ =>
    match Hex.parseHex x with
    | Some z => Ok z
    | None => Throw (LibraryError "point")
    end
|}.

End ResiduesCodec.

(** The integers under addition, a group with cancellation in which
    every representation is canonical. *)
Module Integers.

#[export] Instance curve : CurveLib := {|
  Point := Z;
  ec_g := 1;
  ec_n := 1019;
  point_inf := 0;
  point_add := Z.add;
  point_mul := Z.mul;
  point_eq := Z.eqb;
  point_getX := fun p => if p =? 0 then None else Some (Z.abs p);
  point_getY := fun p => if p =? 0 then None else Some (Z.abs p + 1);
  point_encode := fun p => ("02" ++ Hex.hex64 (Z.abs p))%string;
  sha256 := Residues.rollingHash 7
|}.

End Integers.

Module MoreScenarios.
Import Residues Scenarios.

(** A database with a citizen whose record has no field. *)
Definition citizenDB2 : gmap string (list (string * string)) :=
  {[ "citizen-003" := [] ]}.

Definition state2 : ServerState :=
  {| SERVER_SECRET := "5ec2e7"; tokenStore := ∅; citizenDB := citizenDB2;
     POLICIES := POLICIES0; rng := rng0 |}.

(** A policy under which every field of [contact] is visible. *)
Definition allVisible : Policy :=
  {| p_name := "Everything"; p_description := "";
     visibleFields := ["name"; "phone"; "email"]; hiddenFields := ["taxRecords"];
     allowedActions := [] |}.

(** A server whose one policy is [allVisible] and whose one citizen has
    the record [contact]. *)
Definition state3 : ServerState :=
  {| SERVER_SECRET := "5ec2e7"; tokenStore := ∅;
     citizenDB := {[ "citizen-004" := contact ]};
     POLICIES := {[ "everything" := allVisible ]}; rng := rng0 |}.

Definition everything : CreateRequest :=
  {| req_citizenId := "citizen-004"; req_policyId := "everything";
     req_expiresIn := None |}.


Definition fieldless : CreateRequest :=
  {| req_citizenId := "citizen-003"; req_policyId := "id-renewal";
     req_expiresIn := None |}.

(** Two openings, and a verification request built by hand. *)
Definition nameOpening : Opening :=
  {| op_fieldName := "name"; op_value := "Ahmed"; op_randomness := "0a" |}.

Definition phoneOpening : Opening :=
  {| op_fieldName := "phone"; op_value := "+966501234567"; op_randomness := "1f" |}.

Definition handMade : VerifyRequest :=
  {| vq_visibleFields := [nameOpening; phoneOpening];
     vq_recordCommitment := PointText ("02" ++ Hex.hex64 700);
     vq_hiddenCommitment := PointXY "2a" "" |}.

Definition noOpenings : VerifyRequest :=
  {| vq_visibleFields := [];
     vq_recordCommitment := PointText ("02" ++ Hex.hex64 700);
     vq_hiddenCommitment := PointXY "2a" "" |}.

End MoreScenarios.

(** * Tactics for goals settled by running the definitions *)

(** An equation between a closed run and its result. *)
Ltac run := vm_compute; reflexivity.

(** A decidable closed proposition. *)
Ltac decide_by_running := apply (bool_decide_unpack _); vm_compute; exact I.


(** * Facts about the hexadecimal text *)

Module HexFacts.
Import Hex.

Lemma hexVal_hexDigit d : 0 <= d < 16 -> hexVal (hexDigit d) = Some d.
Proof.
  intros Hd.
  assert (Hcases : d = 0 \/ d = 1 \/ d = 2 \/ d = 3 \/ d = 4 \/ d = 5 \/ d = 6
    \/ d = 7 \/ d = 8 \/ d = 9 \/ d = 10 \/ d = 11 \/ d = 12 \/ d = 13
    \/ d = 14 \/ d = 15) by lia.
  repeat (destruct Hcases as [-> | Hcases]; [reflexivity |]).
  subst d. reflexivity.
Qed.

Lemma parseHexFrom_toHexAux fuel : forall z acc,
  0 <= z < 2 ^ Z.of_nat fuel ->
  parseHexFrom 0 (toHexAux fuel z acc) = parseHexFrom z acc.
Proof.
  induction fuel as [| fuel IH]; intros z acc Hz.
  - simpl in *. replace z with 0 by lia. reflexivity.
  - cbn [toHexAux].
    assert (Hmod : 0 <= z mod 16 < 16) by (apply Z.mod_pos_bound; lia).
    assert (Hdiv : 0 <= z / 16) by (apply Z.div_pos; lia).
    assert (Hsplit : z = 16 * (z / 16) + z mod 16) by (apply Z.div_mod; lia).
    destruct (z / 16 =? 0) eqn:Hq.
    + apply Z.eqb_eq in Hq. cbn [parseHexFrom].
      rewrite hexVal_hexDigit by assumption.
      f_equal. lia.
    + apply Z.eqb_neq in Hq. rewrite IH.
      * cbn [parseHexFrom]. rewrite hexVal_hexDigit by assumption.
        f_equal. lia.
      * split; [assumption |].
        rewrite Nat2Z.inj_succ, Z.pow_succ_r in Hz by lia.
        apply Z.div_lt_upper_bound; lia.
Qed.

Lemma parseHex_toString16 z : 0 <= z -> parseHex (toString16 z) = Some z.
Proof.
  intros Hz. unfold parseHex, toString16.
  rewrite parseHexFrom_toHexAux; [reflexivity |].
  split; [assumption |].
  destruct (Z.eq_dec z 0) as [-> | Hne]; [simpl; lia |].
  rewrite Nat2Z.inj_succ, Z2Nat.id by apply Z.log2_nonneg.
  apply Z.log2_spec. lia.
Qed.

Lemma parseHexFrom_zeros k s : parseHexFrom 0 (zeros k ++ s) = parseHexFrom 0 s.
Proof. induction k as [| k IH]; [reflexivity | exact IH]. Qed.

(** The scalar survives [serializeBN] followed by [new BN(_, 16)]. *)
Lemma parseHex_hex64 z : 0 <= z -> parseHex (hex64 z) = Some z.
Proof.
  intros Hz. unfold hex64, padStart, parseHex.
  rewrite parseHexFrom_zeros. apply parseHex_toString16, Hz.
Qed.

End HexFacts.

(** * Facts about objects used as maps *)

Lemma objGet_app_l {A} (o1 o2 : list (string * A)) k v :
  objGet o1 k = Some v -> objGet (o1 ++ o2)%list k = Some v.
Proof.
  induction o1 as [| [k' v'] o1 IH]; cbn; [discriminate |].
  destruct (String.eqb k k'); auto.
Qed.

Lemma objGet_app_r {A} (o1 o2 : list (string * A)) k :
  objGet o1 k = None -> objGet (o1 ++ o2)%list k = objGet o2 k.
Proof.
  induction o1 as [| [k' v'] o1 IH]; cbn; [reflexivity |].
  destruct (String.eqb k k'); [discriminate | exact IH].
Qed.

Lemma objGet_None_keys {A} (o : list (string * A)) k :
  objGet o k = None <-> k ∉ objKeys o.
Proof.
  induction o as [| [k' v'] o IH]; cbn.
  - split; [intros _; apply not_elem_of_nil | reflexivity].
  - rewrite not_elem_of_cons. destruct (String.eqb k k') eqn:Hk.
    + apply String.eqb_eq in Hk. split; [discriminate | intros [Hne _]; contradiction].
    + apply String.eqb_neq in Hk. rewrite IH. tauto.
Qed.

Lemma objGet_Some_keys {A} (o : list (string * A)) k :
  k ∈ objKeys o -> is_Some (objGet o k).
Proof.
  intros Hin. destruct (objGet o k) eqn:Hget; [eauto |].
  apply objGet_None_keys in Hget. contradiction.
Qed.

(** Writing a new property appends it. *)
Lemma objSet_fresh {A} (o : list (string * A)) k v :
  objGet o k = None -> objSet k v o = (o ++ [(k, v)])%list.
Proof.
  induction o as [| [k' v'] o IH]; cbn; [reflexivity |].
  destruct (String.eqb k k'); [discriminate |].
  intros Hget. f_equal. apply IH, Hget.
Qed.

(** * Facts about the commitment engine *)

#[export] Instance residues_laws : CurveLaws Residues.curve.
Proof.
  split; cbn.
  - intros p r s. rewrite Zplus_mod_idemp_r, Zplus_mod_idemp_l. f_equal. lia.
  - intros p r. f_equal. lia.
  - intros p r. apply Z.eqb_eq.
  - reflexivity.
Qed.

Section PedersenFacts.
Context {E : CurveLib}.

Lemma coordsHex_Ok (p : Point) : displayable p -> exists h, coordsHex p = Ok h.
Proof.
  intros [[x Hx] [y Hy]]. unfold coordsHex. rewrite Hx, Hy. eauto.
Qed.

Lemma coordsHex_displayable (p : Point) h : coordsHex p = Ok h -> displayable p.
Proof.
  unfold coordsHex, displayable.
  destruct (point_getX p); [| discriminate].
  destruct (point_getY p); [| discriminate].
  intros _. split; eauto.
Qed.

Lemma fieldMessage_unfold n v : fieldMessage n v = (n ++ "||" ++ v)%string.
Proof. reflexivity. Qed.

(** What a call of [commitField] that returns has computed. *)
Lemma commitField_inv n v r g fc g' :
  commitField n v r g = (Ok fc, g') ->
  commitsTo n v fc /\
  match r with
  | Some r' => fc_randomness fc = r' /\ g' = g
  | None =>
      fc_randomness fc = (draws g (used g) mod 2 ^ (8 * Z.of_nat 32)) mod ec_n /\
      g' = {| draws := draws g; used := S (used g) |}
  end.
Proof.
  unfold commitField, bindM, liftR, ret.
  destruct r as [r' |]; cbn.
  - destruct (coordsHex (point_mul G _)); [| discriminate].
    destruct (coordsHex (point_mul H r')); [| discriminate].
    destruct (coordsHex (point_add _ _)) eqn:HC; [| discriminate].
    intros [= <- <-]. unfold commitsTo; cbn.
    repeat split; eauto using coordsHex_displayable; eapply coordsHex_displayable, HC.
  - destruct (coordsHex (point_mul G _)); [| discriminate].
    destruct (coordsHex (point_mul H _)); [| discriminate].
    destruct (coordsHex (point_add _ _)) eqn:HC; [| discriminate].
    intros [= <- <-]. unfold commitsTo; cbn.
    repeat split; eauto using coordsHex_displayable; eapply coordsHex_displayable, HC.
Qed.

(** [commitField] returns whenever the library can display its points. *)
Lemma commitField_returns n v g :
  fieldDisplayable n v (drawnScalar g 0) ->
  exists fc, commitField n v None g = (Ok fc, advance g 1).
Proof.
  intros (Hgm & Hhr & HC).
  unfold drawnScalar in Hhr, HC. rewrite Nat.add_0_r in Hhr, HC.
  destruct (coordsHex_Ok _ Hgm) as [hgm Egm].
  destruct (coordsHex_Ok _ Hhr) as [hhr Ehr].
  destruct (coordsHex_Ok _ HC) as [hC EC].
  unfold commitField, randomScalar, randomBytes, bindM, liftR, ret, advance. cbn.
  unfold pedersenCommitment in EC. rewrite <- fieldMessage_unfold in EC.
  rewrite Egm, Ehr, EC, Nat.add_1_r. eauto.
Qed.

Lemma advance_advance g j k : advance (advance g j) k = advance g (j + k).
Proof. unfold advance. cbn. now rewrite Nat.add_assoc. Qed.

Lemma drawnScalar_advance g i : drawnScalar (advance g 1) i = drawnScalar g (S i).
Proof. unfold drawnScalar, advance. cbn. now rewrite Nat.add_1_r, Nat.add_succ_r. Qed.

(** The loop of [commitRecord] runs to its end whenever the library can
    display the points of every field. *)
Lemma commitRecordLoop_returns fields : forall st g,
  (forall i n v, fields !! i = Some (n, v) -> fieldDisplayable n v (drawnScalar g i)) ->
  exists st',
    commitRecordLoop fields st g = (Ok st', advance g (length fields)) /\
    (fields <> [] \/ is_Some (cl_recordCommitment st) ->
     is_Some (cl_recordCommitment st')).
Proof.
  induction fields as [| [n v] rest IH]; intros st g Hdisp.
  - exists st. split.
    + cbn. unfold ret, advance. rewrite Nat.add_0_r. now destruct g.
    + intros [Hne | Hsome]; [congruence | exact Hsome].
  - destruct (commitField_returns n v g (Hdisp 0%nat n v eq_refl)) as [fc Hfc].
    cbn [commitRecordLoop]. unfold bindM at 1. rewrite Hfc.
    match goal with
    | |- context [commitRecordLoop rest ?st1 _] =>
        destruct (IH st1 (advance g 1)) as (st' & Hrun & Hsome)
    end.
    { intros i n' v' Hi. rewrite drawnScalar_advance. apply (Hdisp (S i)), Hi. }
    exists st'. split.
    + rewrite Hrun, advance_advance. reflexivity.
    + intros _. apply Hsome. right. cbn. eauto.
Qed.

(** [commitRecord] returns on every non-empty record whenever the library
    can display the points of every field and the record commitment. *)
Lemma commitRecord_returns record g :
  record <> [] ->
  (forall i n v, record !! i = Some (n, v) -> fieldDisplayable n v (drawnScalar g i)) ->
  (forall st' c,
     fst (commitRecordLoop record commitLoopInit g) = Ok st' ->
     cl_recordCommitment st' = Some c -> displayable c) ->
  exists cr, commitRecord record g = (Ok cr, advance g (length record)).
Proof.
  intros Hne Hfields Htotal.
  destruct (commitRecordLoop_returns record commitLoopInit g Hfields)
    as (st' & Hrun & Hsome).
  destruct Hsome as [c Hc]; [now left |].
  assert (Hd : displayable c) by (apply (Htotal st'); [now rewrite Hrun | exact Hc]).
  destruct (coordsHex_Ok _ Hd) as [hex Hhex].
  unfold commitRecord, bindM, liftR, ret. rewrite Hrun, Hc, Hhex. eauto.
Qed.


(** C6. An empty record leaves [recordCommitment] at [null], and building
    the [math] of the result then calls [getX] on it: [commitRecord]
    throws a [TypeError] and returns no commitment at all. *)
Theorem commitRecord_empty_throws (g : Rng) :
  commitRecord [] g = (Throw TypeError, g).
Proof. reflexivity. Qed.

Lemma subsetLoop_skip fcs names : forall commitment included,
  Forall (fun n => objGet fcs n = None) names ->
  subsetLoop fcs names commitment included =
    {| sc_commitment := commitment; sc_included := included |}.
Proof.
  induction names as [| n names IH]; intros commitment included Hall; cbn.
  - reflexivity.
  - inversion Hall as [| ? ? Hn Hrest]; subst. rewrite Hn. apply IH, Hrest.
Qed.

(** C5, amended. With no name, or only names that are neither keys of the
    map nor member names of [Object.prototype], [computeSubsetCommitment]
    skips every name and returns [null] as the commitment, not a point;
    [recomputeCommitment] of no openings returns [null] as well. *)
Theorem empty_inputs_give_null (fcs : list (string * FieldCommitment))
    (names : list string) :
  Forall (fun n => plainKey n = true) names ->
  Forall (fun n => n ∉ objKeys fcs) names ->
  computeSubsetCommitment fcs names = {| sc_commitment := None; sc_included := [] |} /\
  computeSubsetCommitment fcs [] = {| sc_commitment := None; sc_included := [] |} /\
  recomputeCommitment [] = Ok {| rc_commitment := None; rc_details := [] |}.
Proof.
  intros _ Hnames. split; [| split; reflexivity].
  apply subsetLoop_skip.
  eapply Forall_impl; [exact Hnames |].
  intros n Hn. apply objGet_None_keys, Hn.
Qed.

(** Among names that hold no vertical bar, the message determines the
    pair: the first bar of the message marks where the name ends. *)
Lemma fieldMessage_inj (n1 v1 n2 v2 : string) :
  barFree n1 = true -> barFree n2 = true ->
  fieldMessage n1 v1 = fieldMessage n2 v2 ->
  n1 = n2 /\ v1 = v2.
Proof.
  unfold fieldMessage. revert n2.
  induction n1 as [| c1 n1 IH]; intros [| c2 n2] Hb1 Hb2 Heq; cbn in *.
  - injection Heq as ->. auto.
  - injection Heq as <- _. discriminate.
  - injection Heq as -> _. discriminate.
  - injection Heq as -> Heq.
    apply andb_prop in Hb1 as [_ Hb1]. apply andb_prop in Hb2 as [_ Hb2].
    destruct (IH n2 Hb1 Hb2 Heq) as [-> ->]. auto.
Qed.

(** C7, amended. For every two distinct (name, value) pairs whose names
    hold no vertical bar, the message strings that [commitField] feeds to
    [hashToScalar] differ, whatever the values contain. *)
Theorem distinct_pairs_distinct_messages (n1 v1 n2 v2 : string) :
  barFree n1 = true -> barFree n2 = true ->
  (n1, v1) <> (n2, v2) ->
  fieldMessage n1 v1 <> fieldMessage n2 v2.
Proof.
  intros Hb1 Hb2 Hne Heq. apply Hne.
  destruct (fieldMessage_inj n1 v1 n2 v2 Hb1 Hb2 Heq) as [-> ->]. reflexivity.
Qed.

End PedersenFacts.

Section PartitionFacts.
Context {E : CurveLib} {Laws : CurveLaws E}.

Lemma oadd_None_r (a : option Point) : oadd a None = a.
Proof. destruct a; reflexivity. Qed.

Lemma oadd_assoc (a b c : option Point) : oadd a (oadd b c) = oadd (oadd a b) c.
Proof.
  destruct a, b, c; cbn; try reflexivity. f_equal. apply point_add_assoc.
Qed.

Lemma oadd_comm (a b : option Point) : oadd a b = oadd b a.
Proof. destruct a, b; cbn; try reflexivity. f_equal. apply point_add_comm. Qed.

Lemma Some_accumulate (acc : option Point) (c : Point) :
  Some (accumulate acc c) = oadd acc (Some c).
Proof. destruct acc; reflexivity. Qed.

Lemma osum_cons (c : Point) (cs : list Point) :
  osum (c :: cs) = oadd (Some c) (osum cs).
Proof. reflexivity. Qed.

Lemma osum_app (l1 l2 : list Point) : osum (l1 ++ l2) = oadd (osum l1) (osum l2).
Proof.
  induction l1 as [| c l1 IH]; [reflexivity |].
  rewrite <- app_comm_cons, !osum_cons, IH. apply oadd_assoc.
Qed.

(** The sum of a list of points does not depend on their order. *)
Lemma osum_Permutation (l1 l2 : list Point) : l1 ≡ₚ l2 -> osum l1 = osum l2.
Proof.
  induction 1 as [| c l1 l2 _ IH | c d l | l1 l2 l3 _ IH1 _ IH2].
  - reflexivity.
  - rewrite !osum_cons. now rewrite IH.
  - rewrite !osum_cons, !oadd_assoc. f_equal. apply oadd_comm.
  - congruence.
Qed.

Lemma osum_cons_Some (c : Point) (cs : list Point) : is_Some (osum (c :: cs)).
Proof. rewrite osum_cons. destruct (osum cs); cbn; eauto. Qed.

Lemma commitmentsOf_cons fcs n names :
  commitmentsOf fcs (n :: names) =
    match objGet fcs n with
    | Some fc => fc_commitment fc :: commitmentsOf fcs names
    | None => commitmentsOf fcs names
    end.
Proof. unfold commitmentsOf. cbn. destruct (objGet fcs n); reflexivity. Qed.

(** The loop of [computeSubsetCommitment] adds up, onto what it starts
    from, the commitments stored under the names it is given. *)
Lemma subsetLoop_commitment fcs names : forall commitment included,
  sc_commitment (subsetLoop fcs names commitment included) =
    oadd commitment (osum (commitmentsOf fcs names)).
Proof.
  induction names as [| n names IH]; intros commitment included.
  - cbn. now rewrite oadd_None_r.
  - cbn [subsetLoop]. rewrite commitmentsOf_cons.
    destruct (objGet fcs n) as [fc |].
    + rewrite IH, Some_accumulate, osum_cons. now rewrite oadd_assoc.
    + apply IH.
Qed.

Lemma computeSubsetCommitment_osum fcs names :
  sc_commitment (computeSubsetCommitment fcs names) = osum (commitmentsOf fcs names).
Proof. unfold computeSubsetCommitment. now rewrite subsetLoop_commitment. Qed.

Lemma commitRecordLoop_spec fields : forall st g st' g',
  NoDup (objKeys fields) ->
  Forall (fun k => objGet (cl_fieldCommitments st) k = None) (objKeys fields) ->
  commitRecordLoop fields st g = (Ok st', g') ->
  exists new,
    cl_fieldCommitments st' = (cl_fieldCommitments st ++ new)%list /\
    Forall2 storedFor fields new /\
    cl_recordCommitment st' =
      oadd (cl_recordCommitment st) (osum (map (fun nf => fc_commitment nf.2) new)).
Proof.
  induction fields as [| [n v] rest IH]; intros st g st' g' Hnd Hfresh Hrun.
  - cbn in Hrun. injection Hrun as <- <-. exists [].
    rewrite app_nil_r, oadd_None_r. auto using Forall2_nil.
  - cbn [commitRecordLoop] in Hrun. unfold bindM in Hrun at 1.
    destruct (commitField n v None g) as [[fc | e] g1] eqn:Hcf; [| discriminate].
    apply commitField_inv in Hcf as [Hc [Hr _]].
    cbn in Hnd, Hfresh. apply NoDup_cons in Hnd as [Hn Hnd].
    inversion Hfresh as [| ? ? Hget Hrest]; subst.
    apply IH in Hrun as (new & Hfcs & Hall & Hsum); [| assumption |].
    + cbn [cl_fieldCommitments cl_recordCommitment] in Hfcs, Hsum.
      rewrite objSet_fresh in Hfcs by assumption.
      exists ((n, fc) :: new). split; [| split].
      * rewrite Hfcs, <- app_assoc. reflexivity.
      * constructor; [| assumption].
        split; [reflexivity | split; [exact Hc |]].
        cbn. rewrite Hr. apply Z.mod_pos_bound, ec_n_pos.
      * rewrite Hsum, Some_accumulate. cbn [map]. rewrite osum_cons.
        now rewrite oadd_assoc.
    + cbn [cl_fieldCommitments]. rewrite objSet_fresh by assumption.
      rewrite Forall_forall in Hrest. apply Forall_forall. intros k Hk.
      rewrite objGet_app_r by (apply Hrest, Hk). cbn.
      destruct (String.eqb k n) eqn:Hkn; [| reflexivity].
      apply String.eqb_eq in Hkn. subst. contradiction.
Qed.

Lemma storedFor_keys fields new :
  Forall2 storedFor fields new -> objKeys new = objKeys fields.
Proof.
  induction 1 as [| kv nf fields new [Hk _] _ IH]; [reflexivity |].
  unfold objKeys in *. cbn [map]. now rewrite Hk, IH.
Qed.

Lemma storedFor_lookup fields new k fc :
  Forall2 storedFor fields new ->
  objGet new k = Some fc ->
  exists v, objGet fields k = Some v /\ commitsTo k v fc /\ 0 <= fc_randomness fc.
Proof.
  induction 1 as [| [n v] [n' fc'] fields new (Hk & Hc & Hr) _ IH]; cbn;
    [discriminate |].
  cbn in Hk, Hc, Hr. subst n'.
  destruct (String.eqb k n) eqn:Hkn.
  - apply String.eqb_eq in Hkn. subst. intros [= <-]. eauto.
  - exact IH.
Qed.

(** What a call of [commitRecord] that returns has computed. *)
Lemma commitRecord_inv record g cr g' :
  NoDup (objKeys record) ->
  commitRecord record g = (Ok cr, g') ->
  Forall2 storedFor record (fieldCommitments cr) /\
  Some (recordCommitment cr) =
    osum (map (fun nf => fc_commitment nf.2) (fieldCommitments cr)) /\
  displayable (recordCommitment cr).
Proof.
  intros Hnd Hrun. unfold commitRecord, bindM in Hrun.
  destruct (commitRecordLoop record commitLoopInit g) as [[st | e] g1] eqn:Hloop;
    [| discriminate].
  apply commitRecordLoop_spec in Hloop as (new & Hfcs & Hall & Hsum);
    [| assumption | apply Forall_forall; reflexivity].
  cbn in Hfcs, Hsum.
  destruct (cl_recordCommitment st) as [c |] eqn:Hc; [| discriminate].
  unfold liftR, ret in Hrun.
  destruct (coordsHex c) eqn:Hhex; [| discriminate].
  injection Hrun as <- <-. cbn. rewrite Hfcs.
  split; [assumption |]. split; [exact Hsum |].
  eapply coordsHex_displayable, Hhex.
Qed.

Lemma commitmentsOf_cons_other k fc fcs names :
  k ∉ names -> commitmentsOf ((k, fc) :: fcs) names = commitmentsOf fcs names.
Proof.
  induction names as [| n names IH]; intros Hk; [reflexivity |].
  apply not_elem_of_cons in Hk as [Hne Hk].
  rewrite !commitmentsOf_cons, IH by assumption. cbn [objGet].
  destruct (String.eqb n k) eqn:Hnk; [| reflexivity].
  apply String.eqb_eq in Hnk. congruence.
Qed.

Lemma commitmentsOf_keys fcs :
  NoDup (objKeys fcs) ->
  commitmentsOf fcs (objKeys fcs) = map (fun nf => fc_commitment nf.2) fcs.
Proof.
  induction fcs as [| [k fc] fcs IH]; intros Hnd; [reflexivity |].
  cbn in Hnd. apply NoDup_cons in Hnd as [Hk Hnd].
  change (objKeys ((k, fc) :: fcs)) with (k :: objKeys fcs).
  rewrite commitmentsOf_cons. cbn [objGet]. rewrite String.eqb_refl.
  rewrite commitmentsOf_cons_other by assumption. cbn. f_equal. apply IH, Hnd.
Qed.

Lemma commitmentsOf_nonempty fcs names :
  names <> [] -> Forall (fun n => n ∈ objKeys fcs) names ->
  exists c cs, commitmentsOf fcs names = c :: cs.
Proof.
  destruct names as [| n names]; [congruence |]. intros _ Hall.
  inversion Hall as [| ? ? Hn _]; subst.
  apply objGet_Some_keys in Hn as [fc Hfc].
  rewrite commitmentsOf_cons, Hfc. eauto.
Qed.

(** The two parts of a partition of the record's field names add up to
    the record commitment, [null] being neutral. *)
Lemma partition_oadd record g cr g' (A B : list string) :
  NoDup (objKeys record) ->
  commitRecord record g = (Ok cr, g') ->
  (A ++ B)%list ≡ₚ objKeys record ->
  oadd (sc_commitment (computeSubsetCommitment (fieldCommitments cr) A))
       (sc_commitment (computeSubsetCommitment (fieldCommitments cr) B))
  = Some (recordCommitment cr).
Proof.
  intros Hnd Hrun Hperm.
  destruct (commitRecord_inv _ _ _ _ Hnd Hrun) as (Hall & Hsum & _).
  pose proof (storedFor_keys _ _ Hall) as Hkeys.
  rewrite !computeSubsetCommitment_osum, <- osum_app, Hsum.
  rewrite <- commitmentsOf_keys by (rewrite Hkeys; exact Hnd).
  unfold commitmentsOf at 1 2. rewrite <- omap_app.
  apply osum_Permutation. rewrite Hkeys. now apply omap_Permutation.
Qed.

Lemma partition_members (record : list (string * string)) (A B : list string) :
  (A ++ B)%list ≡ₚ objKeys record ->
  Forall (fun n => n ∈ objKeys record) A /\ Forall (fun n => n ∈ objKeys record) B.
Proof.
  intros Hperm. split; apply Forall_forall; intros n Hn; rewrite <- Hperm;
    apply elem_of_app; auto.
Qed.

Lemma subset_Some record g cr g' (A : list string) :
  NoDup (objKeys record) ->
  commitRecord record g = (Ok cr, g') ->
  A <> [] -> Forall (fun n => n ∈ objKeys record) A ->
  is_Some (sc_commitment (computeSubsetCommitment (fieldCommitments cr) A)).
Proof.
  intros Hnd Hrun Hne Hin.
  destruct (commitRecord_inv _ _ _ _ Hnd Hrun) as (Hall & _ & _).
  rewrite <- (storedFor_keys _ _ Hall) in Hin.
  destruct (commitmentsOf_nonempty _ _ Hne Hin) as (c & cs & Hcs).
  rewrite computeSubsetCommitment_osum, Hcs. apply osum_cons_Some.
Qed.

(** Both parts of a partition into two non-empty lists have a point as
    their subset commitment, and the two points add up to the record
    commitment. *)
Lemma partition_points record g cr g' (A B : list string) :
  NoDup (objKeys record) ->
  commitRecord record g = (Ok cr, g') ->
  (A ++ B)%list ≡ₚ objKeys record ->
  A <> [] -> B <> [] ->
  exists a b,
    sc_commitment (computeSubsetCommitment (fieldCommitments cr) A) = Some a /\
    sc_commitment (computeSubsetCommitment (fieldCommitments cr) B) = Some b /\
    point_add a b = recordCommitment cr.
Proof.
  intros Hnd Hrun Hperm HA HB.
  destruct (partition_members _ _ _ Hperm) as [HinA HinB].
  destruct (subset_Some _ _ _ _ A Hnd Hrun HA HinA) as [a Ha].
  destruct (subset_Some _ _ _ _ B Hnd Hrun HB HinB) as [b Hb].
  pose proof (partition_oadd _ _ _ _ A B Hnd Hrun Hperm) as Hsum.
  rewrite Ha, Hb in Hsum. cbn in Hsum. injection Hsum as Hsum. eauto.
Qed.

(** C3, amended. For every record whose commitment [commitRecord]
    returns and every partition of its field names into two non-empty
    lists [A] and [B], both subset commitments are points and their sum
    is the record commitment. *)
Theorem subset_homomorphism record g cr g' (A B : list string) :
  NoDup (objKeys record) ->
  commitRecord record g = (Ok cr, g') ->
  (A ++ B)%list ≡ₚ objKeys record ->
  A <> [] -> B <> [] ->
  exists a b,
    sc_commitment (computeSubsetCommitment (fieldCommitments cr) A) = Some a /\
    sc_commitment (computeSubsetCommitment (fieldCommitments cr) B) = Some b /\
    point_add a b = recordCommitment cr.
Proof. exact (partition_points record g cr g' A B). Qed.

End PartitionFacts.

Section HonestProof.
Context {E : CurveLib} {Laws : CurveLaws E}.

Lemma honestOpenings_cons fcs n V :
  honestOpenings fcs (n :: V) =
    match objGet fcs n with
    | Some fc =>
        {| op_fieldName := n; op_value := fc_value fc;
           op_randomness := serializeBN (fc_randomness fc) |}
        :: honestOpenings fcs V
    | None => honestOpenings fcs V
    end.
Proof. unfold honestOpenings. cbn. destruct (objGet fcs n); reflexivity. Qed.

(** Recomputing from honest openings adds up the very commitments that
    [computeSubsetCommitment] reads from the map. *)
Lemma recomputeLoop_honest fcs :
  (forall n fc, objGet fcs n = Some fc ->
     exists v, commitsTo n v fc /\ 0 <= fc_randomness fc) ->
  forall V commitment details,
  exists details',
    recomputeLoop (honestOpenings fcs V) commitment details =
      Ok {| rc_commitment := oadd commitment (osum (commitmentsOf fcs V));
            rc_details := details' |}.
Proof.
  intros Hfcs V. induction V as [| n V IH]; intros commitment details.
  - cbn. rewrite oadd_None_r. eauto.
  - rewrite honestOpenings_cons, commitmentsOf_cons.
    destruct (objGet fcs n) as [fc |] eqn:Hget; [| apply IH].
    destruct (Hfcs _ _ Hget) as (v & (_ & Hv & Hc & [[x Hx] _]) & Hr).
    cbn [recomputeLoop op_randomness op_fieldName op_value].
    unfold serializeBN. rewrite HexFacts.parseHex_hex64 by assumption.
    rewrite Hv, fieldMessage_unfold.
    unfold pedersenCommitment in Hc. rewrite <- Hc, Hx.
    edestruct IH as [details' ->]. eexists.
    rewrite Some_accumulate, osum_cons, oadd_assoc. reflexivity.
Qed.


End HonestProof.

(** * The commitment engine on concrete inputs *)

Module Examples.
Import Residues Scenarios.

Lemma NoDup_contact : NoDup (objKeys contact).
Proof. decide_by_running. Defined.


Lemma empty_inputs_give_null_witness :
  match fst (commitRecord nameOnly rng0) with
  | Ok cr =>
      computeSubsetCommitment (fieldCommitments cr) ["nickname"; "passport"] =
        {| sc_commitment := None; sc_included := [] |}
  | Throw _ => False
  end.
Proof.
  destruct (fst (commitRecord nameOnly rng0)) as [cr | e] eqn:Hrun.
  - apply (empty_inputs_give_null (fieldCommitments cr) ["nickname"; "passport"]).
    + repeat constructor.
    + vm_compute in Hrun. injection Hrun as <-.
      repeat constructor; decide_by_running.
  - vm_compute in Hrun. discriminate.
Defined.

Lemma distinct_pairs_distinct_messages_witness :
  fieldMessage "a" "b||c" <> fieldMessage "ab" "|c".
Proof.
  apply (distinct_pairs_distinct_messages "a" "b||c" "ab" "|c");
    [reflexivity | reflexivity | discriminate].
Defined.

Lemma subset_homomorphism_witness :
  match commitRecord contact rng0 with
  | (Ok cr, _) =>
      exists a b,
        sc_commitment (computeSubsetCommitment (fieldCommitments cr) ["email"; "name"])
          = Some a /\
        sc_commitment (computeSubsetCommitment (fieldCommitments cr) ["phone"])
          = Some b /\
        point_add a b = recordCommitment cr
  | (Throw _, _) => False
  end.
Proof.
  destruct (commitRecord contact rng0) as [[cr | e] g'] eqn:Hrun.
  - apply (subset_homomorphism contact rng0 cr g' ["email"; "name"] ["phone"]).
    + exact NoDup_contact.
    + exact Hrun.
    + cbn. etrans; [apply Permutation_swap | apply perm_skip, Permutation_swap].
    + discriminate.
    + discriminate.
  - vm_compute in Hrun. discriminate.
Defined.



(** C3, as stated, fails for the partition with an empty part: the
    subset commitment of no names is [null], not a point to add. *)
Lemma empty_part_has_no_commitment :
  exists cr g',
    commitRecord nameOnly rng0 = (Ok cr, g') /\
    ([] ++ ["name"])%list ≡ₚ objKeys nameOnly /\
    ~ (exists a b,
         sc_commitment (computeSubsetCommitment (fieldCommitments cr) []) = Some a /\
         sc_commitment (computeSubsetCommitment (fieldCommitments cr) ["name"]) = Some b /\
         point_add a b = recordCommitment cr).
Proof.
  do 2 eexists. split; [run |].
  split; [reflexivity |]. intros (a & b & Ha & _). discriminate Ha.
Qed.

(** C5, as stated, fails: on no names, on unknown names and on no
    openings the commitment returned is [null], which is not the identity
    point. *)
Lemma empty_inputs_are_not_identity :
  sc_commitment (computeSubsetCommitment (E := curve) [] []) = None /\
  (exists cr g',
     commitRecord nameOnly rng0 = (Ok cr, g') /\
     sc_commitment (computeSubsetCommitment (fieldCommitments cr) ["nickname"]) = None) /\
  recomputeCommitment (E := curve) [] = Ok {| rc_commitment := None; rc_details := [] |} /\
  @None Point <> Some point_inf.
Proof.
  split; [reflexivity |]. split; [| split; [reflexivity | discriminate]].
  do 2 eexists. split; run.
Qed.

(** C7, as stated, fails: two distinct pairs give [commitField] the same
    message, and so, for equal randomness, the same commitment. A name
    that merely ends in a bar collides as well. *)
Lemma separator_collision :
  ("a", "b||c") <> ("a||b", "c") /\
  fieldMessage "a" "b||c" = fieldMessage "a||b" "c" /\
  (exists fc1 fc2,
     commitField "a" "b||c" (Some 5) rng0 = (Ok fc1, rng0) /\
     commitField "a||b" "c" (Some 5) rng0 = (Ok fc2, rng0) /\
     fc_commitment fc1 = fc_commitment fc2) /\
  ("a|", "x") <> ("a", "|x") /\
  fieldMessage "a|" "x" = fieldMessage "a" "|x".
Proof.
  split; [discriminate |]. split; [reflexivity |].
  split; [| split; [discriminate | reflexivity]].
  do 2 eexists. split; [run |]. split; run.
Qed.

End Examples.

(** * Facts about the server *)

Section SortFacts.

Lemma insertSorted_Permutation s l : insertSorted s l ≡ₚ s :: l.
Proof.
  induction l as [| x l IH]; cbn; [reflexivity |].
  destruct (String.leb s x); [reflexivity |].
  rewrite IH. apply Permutation_swap.
Qed.

Lemma arraySort_Permutation l : arraySort l ≡ₚ l.
Proof.
  induction l as [| x l IH]; cbn; [reflexivity |].
  rewrite insertSorted_Permutation. now rewrite IH.
Qed.

Lemma leb_false_le s x : String.leb s x = false -> String.le x s.
Proof.
  intros Hsx. destruct (total String.le s x) as [Hle | Hle]; [| exact Hle].
  unfold String.le in Hle. rewrite Hsx in Hle. destruct Hle.
Qed.

Lemma insertSorted_HdRel a s l :
  String.le a s -> HdRel String.le a l -> HdRel String.le a (insertSorted s l).
Proof.
  intros Has Hl. destruct l as [| x l]; cbn; [now constructor |].
  destruct (String.leb s x); constructor; [assumption |].
  now inversion Hl.
Qed.

Lemma insertSorted_Sorted s l :
  Sorted String.le l -> Sorted String.le (insertSorted s l).
Proof.
  induction 1 as [| x l Hl IH Hx]; cbn; [repeat constructor |].
  destruct (String.leb s x) eqn:Hsx.
  - constructor; [now constructor |]. constructor.
    unfold String.le. now rewrite Hsx.
  - constructor; [exact IH |].
    apply insertSorted_HdRel; [| exact Hx]. apply leb_false_le, Hsx.
Qed.

Lemma arraySort_Sorted l : Sorted String.le (arraySort l).
Proof.
  induction l as [| x l IH]; cbn; [constructor |].
  apply insertSorted_Sorted, IH.
Qed.

(** The sorted array depends on the elements only, not on their order. *)
Lemma arraySort_Permutation_eq l1 l2 : l1 ≡ₚ l2 -> arraySort l1 = arraySort l2.
Proof.
  intros Hperm. apply (Sorted_unique String.le); try apply arraySort_Sorted.
  now rewrite !arraySort_Permutation.
Qed.

Lemma arraySort_idem l : arraySort (arraySort l) = arraySort l.
Proof. apply arraySort_Permutation_eq, arraySort_Permutation. Qed.

Lemma arraySort_fixed l : Sorted String.le l -> arraySort l = l.
Proof.
  intros Hl. apply (Sorted_unique String.le);
    [apply arraySort_Sorted | exact Hl | apply arraySort_Permutation].
Qed.

Lemma sortedPolicy_idem p : sortedPolicy (sortedPolicy p) = sortedPolicy p.
Proof. unfold sortedPolicy. cbn. now rewrite !arraySort_idem. Qed.

End SortFacts.

Section ServerFacts.
Context {E : CurveLib} {L : ServerLibs}.

(** What an issuance that answers 200 has done. *)
Lemma tokenCreate_200 now req s data s' :
  tokenCreate now req s = (Create200 data, s') ->
  exists record policy cr token,
    citizenDB s !! req_citizenId req = Some record /\
    POLICIES s !! req_policyId req = Some policy /\
    fst (commitRecord record {| draws := draws (rng s); used := S (used (rng s)) |})
      = Ok cr /\
    cd_tokenId data =
      Hex.padStart 32 (Hex.toString16 (draws (rng s) (used (rng s)) mod 2 ^ (8 * Z.of_nat 16))) /\
    cd_policyHash data =
      sha256Hex (policyJson (arraySort (visibleFields policy))
                            (arraySort (hiddenFields policy))) /\
    cd_token data = token /\
    jwt_sign
      (jwtPayloadOf (cd_tokenId data) (req_citizenId req) (req_policyId req)
         (cd_policyHash data) (point_encode (recordCommitment cr))
         (allowedActions policy))
      (SERVER_SECRET s) (default 3600 (req_expiresIn req)) now = Ok token /\
    cd_visibleFields data = arraySort (visibleFields policy) /\
    cd_hiddenFields data = arraySort (hiddenFields policy) /\
    POLICIES s' = <[req_policyId req := sortedPolicy policy]> (POLICIES s) /\
    tokenStore s' =
      <[cd_tokenId data :=
          {| st_citizenId := req_citizenId req;
             st_policyId := req_policyId req;
             st_record := record;
             st_policy := req_policyId req;
             st_fieldCommitments := fieldCommitments cr;
             st_recordCommitment := recordCommitment cr;
             st_createdAt := now |}]> (tokenStore s) /\
    citizenDB s' = citizenDB s /\ SERVER_SECRET s' = SERVER_SECRET s.
Proof.
  unfold tokenCreate, tokenCreateBody.
  destruct (citizenDB s !! req_citizenId req) as [record |] eqn:Hrec;
    [| intros [=]].
  destruct (POLICIES s !! req_policyId req) as [policy |] eqn:Hpol;
    [| intros [=]].
  unfold bindM, liftRng, liftR, tokenStoreSet, sortPolicyFields, ret, randomBytes.
  cbn.
  destruct (commitRecord record _) as [[cr | e] g1] eqn:Hcr; cbn; [| intros [=]].
  unfold serializePoint, bindR.
  destruct (coordsHex (recordCommitment cr)) as [xy | e]; cbn; [| intros [=]].
  destruct (jwt_sign _ _ _ _) as [token | e] eqn:Hsign; cbn; [| intros [=]].
  destruct (serializeFieldCommitments _) as [fcs | e]; cbn; [| intros [=]].
  intros [= <- <-]. cbn.
  exists record, policy, cr, token. rewrite Hcr. cbn.
  repeat split; try reflexivity. exact Hsign.
Qed.

(** Whatever an issuance answers, the catalog is either untouched or has
    the requested entry sorted in place. *)
Lemma tokenCreate_policies now req s :
  POLICIES (snd (tokenCreate now req s)) = POLICIES s \/
  exists policy,
    POLICIES s !! req_policyId req = Some policy /\
    POLICIES (snd (tokenCreate now req s)) =
      <[req_policyId req := sortedPolicy policy]> (POLICIES s).
Proof.
  unfold tokenCreate, tokenCreateBody.
  destruct (citizenDB s !! req_citizenId req) as [record |]; [| now left].
  destruct (POLICIES s !! req_policyId req) as [policy |] eqn:Hpol; [| now left].
  unfold bindM, liftRng, liftR, tokenStoreSet, sortPolicyFields, ret, randomBytes.
  cbn.
  destruct (commitRecord record _) as [[cr | e] g1]; cbn; [| now left].
  right. exists policy. split; [reflexivity |].
  unfold serializePoint, bindR.
  destruct (coordsHex (recordCommitment cr)) as [xy | e]; cbn; [| reflexivity].
  destruct (jwt_sign _ _ _ _) as [token | e]; cbn; [| reflexivity].
  destruct (serializeFieldCommitments _) as [fcs | e]; cbn; reflexivity.
Qed.

(** The names of the openings follow the order of [fields]. *)
Lemma visibleLoop_spec record fcs fields : forall filteredData proof fd' proof',
  visibleLoop record fcs fields filteredData proof = Ok (fd', proof') ->
  exists new,
    proof' = (proof ++ new)%list /\
    map op_fieldName new = filter (fun f => inRecord record f) fields /\
    Forall (fun o =>
              objGet record (op_fieldName o) = Some (op_value o) /\
              exists fc, objGet fcs (op_fieldName o) = Some fc /\
                         op_randomness o = serializeBN (fc_randomness fc)) new.
Proof.
  induction fields as [| f fields IH]; intros filteredData proof fd' proof' Hrun.
  - cbn in Hrun. injection Hrun as <- <-. exists []. rewrite app_nil_r. auto.
  - cbn [visibleLoop] in Hrun.
    destruct (objGet record f) as [v |] eqn:Hv.
    + destruct (objGet fcs f) as [fc |] eqn:Hfc; [| discriminate].
      apply IH in Hrun as (new & -> & Hnames & Hall).
      eexists (_ :: new). rewrite <- app_assoc. split; [reflexivity |].
      rewrite filter_cons_True by (unfold inRecord; rewrite Hv; exact I).
      cbn. rewrite Hnames.
      split; [reflexivity |]. constructor; [| exact Hall]. cbn. eauto.
    + rewrite filter_cons_False by (unfold inRecord; rewrite Hv; intros []).
      apply IH in Hrun. exact Hrun.
Qed.

(** What a redemption that answers 200 has read and returned. *)
Lemma delegate_200 now token s data :
  delegate now token s = Delegate200 data ->
  exists payload stored policy,
    jwt_verify token (SERVER_SECRET s) now = inr payload /\
    tokenStore s !! jti payload = Some stored /\
    POLICIES s !! st_policy stored = Some policy /\
    map op_fieldName (dp_visibleFields (dd_proof data)) =
      filter (fun f => inRecord (st_record stored) f) (visibleFields policy) /\
    Forall (fun o =>
              objGet (st_record stored) (op_fieldName o) = Some (op_value o) /\
              exists fc, objGet (st_fieldCommitments stored) (op_fieldName o) = Some fc /\
                         op_randomness o = serializeBN (fc_randomness fc))
      (dp_visibleFields (dd_proof data)) /\
    dp_hiddenFieldCount (dd_proof data) =
      length (filter (fun f => inRecord (st_record stored) f) (hiddenFields policy)).
Proof.
  unfold delegate, delegateBody.
  destruct (jwt_verify token (SERVER_SECRET s) now) as [msg | payload] eqn:Hjwt;
    [intros [=] |].
  destruct (tokenStore s !! jti payload) as [stored |] eqn:Hst; [| intros [=]].
  destruct (POLICIES s !! st_policy stored) as [policy |] eqn:Hpol; [| intros [=]].
  unfold delegateStored, bindR.
  destruct (visibleLoop _ _ _ _ _) as [[fd proof] | e] eqn:Hloop; [| intros [=]].
  destruct (verifyPartition _ _ _) as [vr | e]; [| intros [=]].
  destruct (serializePoint (Some _)) as [spD | e]; [| intros [=]].
  destruct (serializePoint _) as [spH | e]; [| intros [=]].
  destruct (serializePoint _) as [spV | e]; [| intros [=]].
  intros [= <-]. cbn.
  apply visibleLoop_spec in Hloop as (new & -> & Hnames & Hall).
  exists payload, stored, policy. cbn. auto 10.
Qed.

End ServerFacts.

Section ServerClaims.
Context {E : CurveLib} {L : ServerLibs}.


Lemma serve_policies r s :
  POLICIES (serve r s) = POLICIES s \/
  exists policyId policy,
    POLICIES s !! policyId = Some policy /\
    POLICIES (serve r s) = <[policyId := sortedPolicy policy]> (POLICIES s).
Proof.
  destruct r as [now req | now token |]; cbn; [| now left..].
  destruct (tokenCreate_policies now req s) as [Heq | (policy & Hp & Heq)];
    [now left | right; eauto].
Qed.

(** Once sorted, an entry of the catalog stays as it is. *)
Lemma serveAll_sorted_entry policyId policy rs : forall s,
  POLICIES s !! policyId = Some (sortedPolicy policy) ->
  POLICIES (serveAll rs s) !! policyId = Some (sortedPolicy policy).
Proof.
  induction rs as [| r rs IH]; intros s Hs; [exact Hs |].
  cbn. apply IH.
  destruct (serve_policies r s) as [-> | (pid & p & Hp & ->)]; [exact Hs |].
  destruct (decide (pid = policyId)) as [-> | Hne].
  - rewrite lookup_insert_eq. rewrite Hs in Hp. injection Hp as <-.
    now rewrite sortedPolicy_idem.
  - now rewrite lookup_insert_ne.
Qed.


(** C8. The policy hash of an issuance is the SHA-256 digest of the JSON
    text [{"visible": sorted names, "hidden": sorted names}], its first
    32 characters being what the token carries. It is the same for a
    second issuance under the same policy, whatever randomness, time and
    requests lie between the two, and for any issuance under a policy
    with the same visible and hidden name sets. *)
Theorem policy_hash_deterministic now1 req1 s data1 s1 policy :
  tokenCreate now1 req1 s = (Create200 data1, s1) ->
  POLICIES s !! req_policyId req1 = Some policy ->
  cd_policyHash data1 =
    sha256Hex (policyJson (arraySort (visibleFields policy))
                          (arraySort (hiddenFields policy))) /\
  (exists payload expiresIn,
     jwt_sign payload (SERVER_SECRET s) expiresIn now1 = Ok (cd_token data1) /\
     jp_policyHash payload = Hex.slice0 32 (cd_policyHash data1)) /\
  (forall rs now2 req2 data2 s2,
     req_policyId req2 = req_policyId req1 ->
     tokenCreate now2 req2 (serveAll rs s1) = (Create200 data2, s2) ->
     cd_policyHash data2 = cd_policyHash data1) /\
  (forall now2 req2 sB data2 s2 policyB,
     tokenCreate now2 req2 sB = (Create200 data2, s2) ->
     POLICIES sB !! req_policyId req2 = Some policyB ->
     visibleFields policyB ≡ₚ visibleFields policy ->
     hiddenFields policyB ≡ₚ hiddenFields policy ->
     cd_policyHash data2 = cd_policyHash data1).
Proof.
  intros Hrun Hpol.
  destruct (tokenCreate_200 _ _ _ _ _ Hrun)
    as (record & policy' & cr & token & _ & Hpol' & _ & _ & Hhash & Htok & Hsign
        & _ & _ & HP & _).
  rewrite Hpol in Hpol'. injection Hpol' as <-.
  assert (Hany : forall now2 req2 sB data2 s2 policyB,
            tokenCreate now2 req2 sB = (Create200 data2, s2) ->
            POLICIES sB !! req_policyId req2 = Some policyB ->
            visibleFields policyB ≡ₚ visibleFields policy ->
            hiddenFields policyB ≡ₚ hiddenFields policy ->
            cd_policyHash data2 = cd_policyHash data1).
  { intros now2 req2 sB data2 s2 policyB Hrun2 HpolB HV HH.
    destruct (tokenCreate_200 _ _ _ _ _ Hrun2)
      as (_ & pB & _ & _ & _ & HpB & _ & _ & Hhash2 & _).
    rewrite HpolB in HpB. injection HpB as <-.
    rewrite Hhash, Hhash2.
    now rewrite (arraySort_Permutation_eq _ _ HV), (arraySort_Permutation_eq _ _ HH). }
  split; [exact Hhash |]. split; [| split; [| exact Hany]].
  - eexists _, _. split; [rewrite <- Htok in Hsign; exact Hsign |]. reflexivity.
  - intros rs now2 req2 data2 s2 Hsame Hrun2.
    assert (Hentry : POLICIES s1 !! req_policyId req1 = Some (sortedPolicy policy))
      by (rewrite HP; apply lookup_insert_eq).
    apply (Hany now2 req2 (serveAll rs s1) data2 s2 (sortedPolicy policy) Hrun2).
    + rewrite Hsame. apply serveAll_sorted_entry, Hentry.
    + apply arraySort_Permutation.
    + apply arraySort_Permutation.
Qed.

End ServerClaims.

Section Coverage.
Context {E : CurveLib} {L : ServerLibs}.

Lemma objGet_Some_elem {A} (o : list (string * A)) k v :
  objGet o k = Some v -> k ∈ objKeys o.
Proof.
  intros Hget. destruct (decide (k ∈ objKeys o)) as [Hin | Hnot]; [exact Hin |].
  apply objGet_None_keys in Hnot. congruence.
Qed.

Lemma presentFields_keys record fields :
  Forall (fun f => f ∈ objKeys record) (presentFields record fields).
Proof.
  apply Forall_forall. intros f Hf. unfold presentFields in Hf.
  apply list_elem_of_filter in Hf as [Hin _]. unfold inRecord in Hin.
  destruct (objGet record f) eqn:Hget; [| destruct Hin].
  eapply objGet_Some_elem, Hget.
Qed.

Lemma visibleLoop_Ok record fcs fields :
  objKeys fcs = objKeys record ->
  forall filteredData proof,
  exists fd' proof', visibleLoop record fcs fields filteredData proof = Ok (fd', proof').
Proof.
  intros Hkeys. induction fields as [| f fields IH]; intros filteredData proof; cbn;
    [eauto |].
  destruct (objGet record f) as [v |] eqn:Hv; [| apply IH].
  apply objGet_Some_elem in Hv. rewrite <- Hkeys in Hv.
  apply objGet_Some_keys in Hv as [fc ->]. apply IH.
Qed.

Lemma subsetLoop_Some fcs names : forall commitment included,
  is_Some commitment ->
  is_Some (sc_commitment (subsetLoop fcs names commitment included)).
Proof.
  induction names as [| n names IH]; intros commitment included Hc; cbn;
    [exact Hc |].
  destruct (objGet fcs n); apply IH; eauto.
Qed.

Lemma subsetCommitment_Some fcs names :
  names <> [] -> Forall (fun n => n ∈ objKeys fcs) names ->
  is_Some (sc_commitment (computeSubsetCommitment fcs names)).
Proof.
  intros Hne Hin. destruct names as [| n names]; [congruence |].
  inversion Hin as [| ? ? Hn _]; subst.
  apply objGet_Some_keys in Hn as [fc Hfc].
  unfold computeSubsetCommitment. cbn [subsetLoop]. rewrite Hfc.
  apply subsetLoop_Some. eauto.
Qed.

(** C2, amended. A redemption makes no coverage check and has no
    [PolicyRecordMismatch] outcome: for a stored token whose commitments
    are those of the record's fields, whose policy names at least one
    visible and one hidden field of the record, and whose commitments the
    library can display, it answers 200 with the openings of [V] and the
    count of [H], whether or not [V ∪ H] equals the keys of the record. *)
Theorem delegate_makes_no_coverage_check now token s payload stored policy :
  jwt_verify token (SERVER_SECRET s) now = inr payload ->
  tokenStore s !! jti payload = Some stored ->
  POLICIES s !! st_policy stored = Some policy ->
  objKeys (st_fieldCommitments stored) = objKeys (st_record stored) ->
  Forall (fun f => plainKey f = true) (visibleFields policy ++ hiddenFields policy) ->
  presentFields (st_record stored) (visibleFields policy) <> [] ->
  presentFields (st_record stored) (hiddenFields policy) <> [] ->
  displayable (st_recordCommitment stored) ->
  (forall h f,
     sc_commitment (computeSubsetCommitment (st_fieldCommitments stored)
                      (presentFields (st_record stored) (hiddenFields policy))) = Some h ->
     sc_commitment (computeSubsetCommitment (st_fieldCommitments stored)
                      (presentFields (st_record stored) (visibleFields policy))) = Some f ->
     displayable h /\ displayable f /\ displayable (point_add h f)) ->
  exists data,
    delegate now token s = Delegate200 data /\
    map op_fieldName (dp_visibleFields (dd_proof data)) =
      presentFields (st_record stored) (visibleFields policy) /\
    dp_hiddenFieldCount (dd_proof data) =
      length (presentFields (st_record stored) (hiddenFields policy)).
Proof.
  intros Hjwt Hst Hpol Hkeys _ HV HH HdispD Hdisp.
  pose proof (presentFields_keys (st_record stored) (visibleFields policy)) as HinV.
  pose proof (presentFields_keys (st_record stored) (hiddenFields policy)) as HinH.
  rewrite <- Hkeys in HinV, HinH.
  destruct (subsetCommitment_Some _ _ HV HinV) as [f Hf].
  destruct (subsetCommitment_Some _ _ HH HinH) as [h Hh].
  destruct (Hdisp h f Hh Hf) as (Hdh & Hdf & Hds).
  destruct (visibleLoop_Ok (st_record stored) (st_fieldCommitments stored)
              (visibleFields policy) Hkeys [] []) as (fd & proof & Hloop).
  destruct (coordsHex_Ok _ HdispD) as [dHex HdHex].
  destruct (coordsHex_Ok _ Hdh) as [hHex HhHex].
  destruct (coordsHex_Ok _ Hdf) as [fHex HfHex].
  destruct (coordsHex_Ok _ Hds) as [sHex HsHex].
  assert (Hrun : exists data, delegate now token s = Delegate200 data).
  { unfold delegate, delegateBody. rewrite Hjwt, Hst, Hpol.
    unfold delegateStored, bindR. rewrite Hloop.
    unfold presentFields in Hh, Hf. rewrite Hh, Hf.
    unfold verifyPartition, serializePoint, bindR.
    rewrite HdHex, HhHex, HfHex, HsHex. eauto. }
  destruct Hrun as [data Hrun]. exists data. split; [exact Hrun |].
  apply delegate_200 in Hrun
    as (payload' & stored' & policy' & Hjwt' & Hst' & Hpol' & Hnames & _ & Hcount).
  rewrite Hjwt in Hjwt'. injection Hjwt' as <-.
  rewrite Hst in Hst'. injection Hst' as <-.
  rewrite Hpol in Hpol'. injection Hpol' as <-.
  split; assumption.
Qed.

End Coverage.

(** * The server on concrete requests *)

Module ServerExamples.
Import Residues Scenarios.


(** The first issuance under the renewal policy, and a second one after
    it, both answer 200. *)
Lemma first_issuance :
  exists data,
    tokenCreate 1000 renewal state0 =
      (Create200 data, snd (tokenCreate 1000 renewal state0)).
Proof. eexists. run. Qed.

Lemma second_issuance :
  exists data,
    tokenCreate 5000 renewal (snd (tokenCreate 1000 renewal state0)) =
      (Create200 data,
       snd (tokenCreate 5000 renewal (snd (tokenCreate 1000 renewal state0)))).
Proof. eexists. run. Qed.


Lemma policy_hash_deterministic_witness :
  exists data1 data2 s2,
    fst (tokenCreate 1000 renewal state0) = Create200 data1 /\
    tokenCreate 5000 renewal (snd (tokenCreate 1000 renewal state0))
      = (Create200 data2, s2) /\
    cd_policyHash data2 = cd_policyHash data1.
Proof.
  destruct first_issuance as [data1 Hrun1].
  destruct second_issuance as [data2 Hrun2].
  exists data1, data2. eexists.
  split; [now rewrite Hrun1 |]. split; [exact Hrun2 |].
  destruct (policy_hash_deterministic 1000 renewal state0 data1 _ idRenewal Hrun1
              eq_refl) as (_ & _ & Hagain & _).
  exact (Hagain [] 5000 renewal data2 _ eq_refl Hrun2).
Defined.

(** The two issuances agree on the policy hash while their token ids and
    record commitments differ. *)
Example two_issuances :
  let first := tokenCreate 1000 renewal state0 in
  let second := tokenCreate 5000 renewal (snd first) in
  match fst first, fst second with
  | Create200 data1, Create200 data2 =>
      cd_policyHash data1 = cd_policyHash data2 /\
      cd_tokenId data1 <> cd_tokenId data2 /\
      cd_recordCommitment data1 <> cd_recordCommitment data2
  | _, _ => False
  end.
Proof. vm_compute. repeat split; discriminate. Qed.

(** C2, as stated, fails: the record has the field [passport], which is
    neither visible nor hidden under the policy, and the redemption
    answers 200 with a filtered record and a proof. *)
Lemma uncovered_field_is_served :
  exists data,
    delegate 2000 token0 (snd (tokenCreate 1000 renewal2 state1)) = Delegate200 data /\
    filteredRecord data = [("name", "Sara")] /\
    dp_hiddenFieldCount (dd_proof data) = 1%nat /\
    "passport" ∈ objKeys [("name", "Sara"); ("phone", "+966500000000");
                          ("passport", "P1234567")] /\
    "passport" ∉ (visibleFields idRenewal ++ hiddenFields idRenewal)%list.
Proof.
  eexists. split; [run |].
  split; [reflexivity |]. split; [reflexivity |].
  split; decide_by_running.
Qed.

Lemma delegate_makes_no_coverage_check_witness :
  let s := snd (tokenCreate 1000 renewal2 state1) in
  exists stored policy,
    tokenStore s !! "000000000000000000000000000003e8" = Some stored /\
    POLICIES s !! st_policy stored = Some policy /\
    exists data,
      delegate 2000 token0 s = Delegate200 data /\
      map op_fieldName (dp_visibleFields (dd_proof data)) =
        presentFields (st_record stored) (visibleFields policy) /\
      dp_hiddenFieldCount (dd_proof data) =
        length (presentFields (st_record stored) (hiddenFields policy)).
Proof.
  intros s. do 2 eexists. split; [run |]. split; [run |].
  eapply (delegate_makes_no_coverage_check 2000 token0 s).
  - run.
  - run.
  - run.
  - run.
  - decide_by_running.
  - vm_compute. discriminate.
  - vm_compute. discriminate.
  - split; vm_compute; eauto.
  - intros h f Hh Hf. vm_compute in Hh, Hf.
    injection Hh as <-. injection Hf as <-. repeat split; vm_compute; eauto.
Defined.

End ServerExamples.

(** * Further properties of pedersen.js *)

Module HexWidth.
Import Hex.

Lemma length_append (s1 s2 : string) :
  String.length (s1 ++ s2) = (String.length s1 + String.length s2)%nat.
Proof. induction s1 as [| c s1 IH]; cbn; [reflexivity | now rewrite IH]. Qed.

Lemma length_zeros k : String.length (zeros k) = k.
Proof. induction k as [| k IH]; cbn; [reflexivity | now rewrite IH]. Qed.

Lemma length_toHexAux fuel : forall z acc k,
  (1 <= k)%nat -> 0 <= z < 16 ^ Z.of_nat k ->
  (String.length (toHexAux fuel z acc) <= k + String.length acc)%nat.
Proof.
  induction fuel as [| fuel IH]; intros z acc k Hk Hz; cbn [toHexAux]; [lia |].
  destruct (z / 16 =? 0) eqn:Hq; [cbn; lia |].
  apply Z.eqb_neq in Hq.
  assert (Hk2 : (2 <= k)%nat).
  { destruct (decide (k = 1%nat)) as [-> | ?]; [| lia].
    exfalso. apply Hq. apply Z.div_small. cbn in Hz. lia. }
  specialize (IH (z / 16) (String (hexDigit (z mod 16)) acc) (k - 1)%nat).
  cbn [String.length] in IH.
  assert (Hdiv : 0 <= z / 16 < 16 ^ Z.of_nat (k - 1)).
  { split; [apply Z.div_pos; lia |].
    apply Z.div_lt_upper_bound; [lia |].
    replace (Z.of_nat k) with (Z.succ (Z.of_nat (k - 1))) in Hz by lia.
    rewrite Z.pow_succ_r in Hz by lia. lia. }
  specialize (IH ltac:(lia) Hdiv). lia.
Qed.

(** A number below [16 ^ k] is written, padded, on exactly [k] digits. *)
Lemma length_padStart_toString16 (k : nat) (z : Z) :
  (1 <= k)%nat -> 0 <= z < 16 ^ Z.of_nat k ->
  String.length (padStart k (toString16 z)) = k.
Proof.
  intros Hk Hz. unfold padStart, toString16.
  pose proof (length_toHexAux (S (Z.to_nat (Z.log2 z))) z "" k Hk Hz) as Hlen.
  cbn [String.length] in Hlen.
  rewrite length_append, length_zeros. lia.
Qed.

End HexWidth.

(** X1. A non-negative scalar survives [serializeBN] followed by
    [deserializeBN]. *)
Theorem serializeBN_roundtrip (bn : Z) :
  0 <= bn -> deserializeBN (serializeBN bn) = Some bn.
Proof. apply HexFacts.parseHex_hex64. Qed.

(** X2. A scalar below [2 ^ 256] is serialized on exactly 64 characters. *)
Theorem serializeBN_width (bn : Z) :
  0 <= bn < 2 ^ 256 -> String.length (serializeBN bn) = 64%nat.
Proof.
  intros Hbn. apply HexWidth.length_padStart_toString16; [lia |].
  change (16 ^ Z.of_nat 64) with (2 ^ 256). exact Hbn.
Qed.

Section ScalarFacts.
Context {E : CurveLib} {Laws : CurveLaws E}.

(** X3. Both ways the engine obtains a scalar stay within [[0, ec.n)]:
    [hashToScalar] on any text, and [randomScalar], which takes exactly
    one draw from the randomness source. *)
Theorem scalars_in_range (data : string) (g : Rng) :
  0 <= hashToScalar data < ec_n /\
  exists r, randomScalar g = (Ok r, advance g 1) /\ r = drawnScalar g 0 /\ 0 <= r < ec_n.
Proof.
  split; [apply Z.mod_pos_bound, ec_n_pos |].
  exists (drawnScalar g 0). split; [| split; [reflexivity |]].
  - unfold randomScalar, randomBytes, bindM, ret, advance, drawnScalar.
    now rewrite Nat.add_0_r, Nat.add_1_r.
  - apply Z.mod_pos_bound, ec_n_pos.
Qed.

End ScalarFacts.

Section CommitRecordFacts.
Context {E : CurveLib} {Laws : CurveLaws E}.

Lemma point_add_swap_inner (a b c d : Point) :
  point_add (point_add a b) (point_add c d) =
  point_add (point_add a c) (point_add b d).
Proof.
  rewrite <- (point_add_assoc a b), (point_add_assoc b c d), (point_add_comm b c).
  now rewrite <- (point_add_assoc c b d), (point_add_assoc a c).
Qed.

(** The running totals of the loop of [commitRecord] open the running
    commitment. *)
Lemma commitRecordLoop_totals `{!ScalarLaws E} fields : forall st g st' g',
  (0 <= cl_totalM st < ec_n /\ 0 <= cl_totalR st < ec_n /\
   match cl_recordCommitment st with
   | None => cl_totalM st = 0 /\ cl_totalR st = 0
   | Some c => c = point_add (point_mul G (cl_totalM st)) (point_mul H (cl_totalR st))
   end) ->
  commitRecordLoop fields st g = (Ok st', g') ->
  0 <= cl_totalM st' < ec_n /\ 0 <= cl_totalR st' < ec_n /\
  match cl_recordCommitment st' with
  | None => cl_totalM st' = 0 /\ cl_totalR st' = 0
  | Some c => c = point_add (point_mul G (cl_totalM st')) (point_mul H (cl_totalR st'))
  end.
Proof.
  induction fields as [| [n v] rest IH]; intros st g st' g' Hinv Hrun.
  - cbn in Hrun. injection Hrun as <- <-. exact Hinv.
  - cbn [commitRecordLoop] in Hrun. unfold bindM in Hrun at 1.
    destruct (commitField n v None g) as [[fc | e] g1] eqn:Hcf; [| discriminate].
    apply commitField_inv in Hcf as [(_ & _ & Hc & _) _].
    apply IH in Hrun; [exact Hrun |]. cbn.
    pose proof ec_n_pos as Hn.
    split; [apply Z.mod_pos_bound, Hn |]. split; [apply Z.mod_pos_bound, Hn |].
    rewrite !point_mul_mod, !point_mul_add, Hc. unfold pedersenCommitment.
    rewrite fieldMessage_unfold.
    destruct Hinv as (_ & _ & Hinv).
    destruct (cl_recordCommitment st) as [c |]; cbn.
    + rewrite Hinv. apply point_add_swap_inner.
    + destruct Hinv as [-> ->].
      rewrite <- !point_mul_add. reflexivity.
Qed.

(** X4. The totals that [commitRecord] displays open the record
    commitment: they are scalars of [[0, ec.n)], serialized on its [math]
    object, with [C_D = g·totalM + h·totalR]. *)
Theorem commitRecord_opens_with_totals `{!ScalarLaws E} record g cr g' :
  commitRecord record g = (Ok cr, g') ->
  exists totalM totalR,
    Hex.parseHex (rm_totalM (rc_math cr)) = Some totalM /\
    Hex.parseHex (rm_totalR (rc_math cr)) = Some totalR /\
    0 <= totalM < ec_n /\ 0 <= totalR < ec_n /\
    recordCommitment cr = point_add (point_mul G totalM) (point_mul H totalR).
Proof.
  intros Hrun. unfold commitRecord, bindM in Hrun.
  destruct (commitRecordLoop record commitLoopInit g) as [[st | e] g1] eqn:Hloop;
    [| discriminate].
  apply commitRecordLoop_totals in Hloop as (HM & HR & Hopen).
  - destruct (cl_recordCommitment st) as [c |]; [| discriminate].
    unfold liftR, ret in Hrun. destruct (coordsHex c); [| discriminate].
    injection Hrun as <- <-. cbn.
    exists (cl_totalM st), (cl_totalR st).
    rewrite !HexFacts.parseHex_hex64 by lia. auto.
  - pose proof ec_n_pos. cbn. repeat split; lia.
Qed.

(** The loop of [commitRecord] draws once per field, in order. *)
Lemma commitRecordLoop_randomness fields : forall st g st' g',
  NoDup (objKeys fields) ->
  Forall (fun k => objGet (cl_fieldCommitments st) k = None) (objKeys fields) ->
  commitRecordLoop fields st g = (Ok st', g') ->
  g' = advance g (length fields) /\
  exists new,
    cl_fieldCommitments st' = (cl_fieldCommitments st ++ new)%list /\
    Forall2 storedFor fields new /\
    map (fun nf => fc_randomness nf.2) new = map (drawnScalar g) (seq 0 (length fields)).
Proof.
  induction fields as [| [n v] rest IH]; intros st g st' g' Hnd Hfresh Hrun.
  - cbn in Hrun. injection Hrun as <- <-. split.
    + unfold advance. cbn. rewrite Nat.add_0_r. now destruct g.
    + exists []. rewrite app_nil_r. auto using Forall2_nil.
  - cbn [commitRecordLoop] in Hrun. unfold bindM in Hrun at 1.
    destruct (commitField n v None g) as [[fc | e] g1] eqn:Hcf; [| discriminate].
    apply commitField_inv in Hcf as [Hc [Hr ->]].
    cbn in Hnd, Hfresh. apply NoDup_cons in Hnd as [Hn Hnd].
    inversion Hfresh as [| ? ? Hget Hrest]; subst.
    change {| draws := draws g; used := S (used g) |} with
      {| draws := draws g; used := S (used g) |} in Hrun.
    assert (Hg1 : {| draws := draws g; used := S (used g) |} = advance g 1)
      by (unfold advance; now rewrite Nat.add_1_r).
    rewrite Hg1 in Hrun.
    apply IH in Hrun as (-> & new & Hfcs & Hall & Hrand); [| assumption |].
    + cbn [cl_fieldCommitments] in Hfcs. rewrite objSet_fresh in Hfcs by assumption.
      split; [now rewrite advance_advance |].
      exists ((n, fc) :: new). split; [| split].
      * rewrite Hfcs, <- app_assoc. reflexivity.
      * constructor; [| assumption].
        split; [reflexivity | split; [exact Hc |]].
        cbn. rewrite Hr. apply Z.mod_pos_bound, ec_n_pos.
      * cbn [map length seq]. f_equal.
        -- cbn. rewrite Hr. unfold drawnScalar. now rewrite Nat.add_0_r.
        -- rewrite Hrand, <- seq_shift, map_map.
           apply map_ext. intros i. apply drawnScalar_advance.
    + cbn [cl_fieldCommitments]. rewrite objSet_fresh by assumption.
      rewrite Forall_forall in Hrest. apply Forall_forall. intros k Hk.
      rewrite objGet_app_r by (apply Hrest, Hk). cbn.
      destruct (String.eqb k n) eqn:Hkn; [| reflexivity].
      apply String.eqb_eq in Hkn. subst. contradiction.
Qed.

Lemma objGet_lookup_NoDup {A} (o : list (string * A)) i k v :
  NoDup (objKeys o) -> o !! i = Some (k, v) -> objGet o k = Some v.
Proof.
  revert i. induction o as [| [k' v'] o IH]; intros i Hnd Hi; [discriminate |].
  cbn in Hnd. apply NoDup_cons in Hnd as [Hk' Hnd]. cbn.
  destruct i as [| i]; cbn in Hi.
  - injection Hi as -> ->. now rewrite String.eqb_refl.
  - destruct (String.eqb k k') eqn:Hkk.
    + apply String.eqb_eq in Hkk. subst k'. exfalso. apply Hk'.
      apply list_elem_of_lookup_2 in Hi.
      change k with (fst (k, v)). unfold objKeys. now apply list_elem_of_fmap_2.
    + eapply IH; eauto.
Qed.

(** X5. [commitRecord] commits to every field of the record, once and in
    order: for a record whose keys are outside [Object.prototype], the
    map it returns has the record's keys, the [i]-th field is stored
    under its name with its value, blinded by the [i]-th draw of the
    randomness source, and exactly one draw per field is consumed. *)
Theorem commitRecord_stores_every_field record g cr g' :
  NoDup (objKeys record) ->
  Forall (fun n => plainKey n = true) (objKeys record) ->
  commitRecord record g = (Ok cr, g') ->
  g' = advance g (length record) /\
  objKeys (fieldCommitments cr) = objKeys record /\
  rm_fieldCount (rc_math cr) = length record /\
  forall i n v, record !! i = Some (n, v) ->
    exists fc,
      objGet (fieldCommitments cr) n = Some fc /\
      fc_fieldName fc = n /\ fc_value fc = v /\
      fc_randomness fc = drawnScalar g i /\
      fc_commitment fc = pedersenCommitment n v (drawnScalar g i).
Proof.
  intros Hnd _ Hrun. unfold commitRecord, bindM in Hrun.
  destruct (commitRecordLoop record commitLoopInit g) as [[st | e] g1] eqn:Hloop;
    [| discriminate].
  apply commitRecordLoop_randomness in Hloop as (-> & new & Hfcs & Hall & Hrand);
    [| assumption | apply Forall_forall; reflexivity].
  cbn in Hfcs.
  destruct (cl_recordCommitment st) as [c |]; [| discriminate].
  unfold liftR, ret in Hrun. destruct (coordsHex c); [| discriminate].
  injection Hrun as <- <-. cbn. rewrite Hfcs.
  pose proof (storedFor_keys _ _ Hall) as Hkeys.
  split; [reflexivity |]. split; [exact Hkeys |]. split; [reflexivity |].
  intros i n v Hi.
  destruct (Forall2_lookup_l _ _ _ _ _ Hall Hi) as ([n' fc] & Hnew & Hn & Hc & _).
  cbn in Hn, Hc. subst n'. destruct Hc as (Hname & Hval & Hcom & _).
  assert (Hri : fc_randomness fc = drawnScalar g i).
  { assert (Hl : map (fun nf => fc_randomness nf.2) new !! i = Some (fc_randomness fc))
      by (change (map ?f ?l) with (f <$> l); now rewrite list_lookup_fmap, Hnew).
    rewrite Hrand in Hl. change (map ?f ?l) with (f <$> l) in Hl.
    rewrite list_lookup_fmap in Hl.
    destruct (seq 0 (length record) !! i) as [j |] eqn:Hj; [| discriminate].
    apply lookup_seq in Hj as [-> _]. cbn in Hl. now injection Hl. }
  exists fc. split.
  - eapply objGet_lookup_NoDup; [rewrite Hkeys; exact Hnd | exact Hnew].
  - rewrite <- Hri. auto.
Qed.

End CommitRecordFacts.

Section SubsetFacts.
Context {E : CurveLib}.

Lemma subsetLoop_included fcs names : forall commitment included,
  sc_included (subsetLoop fcs names commitment included) =
    (included ++ filter (fun n => hasEntry fcs n) names)%list /\
  (sc_commitment (subsetLoop fcs names commitment included) = None <->
   commitment = None /\ filter (fun n => hasEntry fcs n) names = []).
Proof.
  induction names as [| n names IH]; intros commitment included.
  - cbn. rewrite app_nil_r. tauto.
  - cbn [subsetLoop]. unfold hasEntry at 1 3.
    destruct (objGet fcs n) as [fc |] eqn:Hn.
    + rewrite filter_cons_True by (rewrite Hn; exact I).
      destruct (IH (Some (accumulate commitment (fc_commitment fc)))
                  (included ++ [n])%list) as [-> ->].
      rewrite <- app_assoc. split; [reflexivity |].
      split; intros [? ?]; discriminate.
    + rewrite filter_cons_False by (rewrite Hn; intros []).
      apply IH.
Qed.

(** X6. For names outside [Object.prototype],
    [computeSubsetCommitment] reports as [included] exactly the requested
    names that have a stored commitment, in the order asked (repetitions
    kept), and its commitment is [null] exactly when no requested name
    has one. *)
Theorem computeSubsetCommitment_included fcs names :
  Forall (fun n => plainKey n = true) names ->
  sc_included (computeSubsetCommitment fcs names) =
    filter (fun n => hasEntry fcs n) names /\
  (sc_commitment (computeSubsetCommitment fcs names) = None <->
   sc_included (computeSubsetCommitment fcs names) = []).
Proof.
  intros _. unfold computeSubsetCommitment.
  destruct (subsetLoop_included fcs names None []) as [Hinc Hnull].
  rewrite Hinc, Hnull. cbn. tauto.
Qed.

Context {Laws : CurveLaws E}.

(** X7. The subset commitment does not depend on the order in which the
    field names, taken outside [Object.prototype], are given. *)
Theorem computeSubsetCommitment_order fcs names names' :
  Forall (fun n => plainKey n = true) names ->
  names ≡ₚ names' ->
  sc_commitment (computeSubsetCommitment fcs names) =
  sc_commitment (computeSubsetCommitment fcs names').
Proof.
  intros _ Hperm. rewrite !computeSubsetCommitment_osum.
  apply osum_Permutation. unfold commitmentsOf. now apply omap_Permutation.
Qed.

Lemma verifyPartition_inv d h f vr :
  verifyPartition (Some d) (Some h) (Some f) = Ok vr ->
  valid vr = point_eq d (point_add h f) /\
  pm_result (pr_math vr) = (if valid vr then "EQUAL ✓" else "NOT EQUAL ✗") /\
  displayable d /\ displayable h /\ displayable f /\ displayable (point_add h f).
Proof.
  unfold verifyPartition, bindR.
  destruct (coordsHex d) eqn:Hd; [| discriminate].
  destruct (coordsHex h) eqn:Hh; [| discriminate].
  destruct (coordsHex f) eqn:Hf; [| discriminate].
  destruct (coordsHex (point_add h f)) eqn:Hs; [| discriminate].
  intros [= <-]. cbn. eauto 10 using coordsHex_displayable.
Qed.

Lemma verifyPartition_Ok d h f :
  displayable d -> displayable h -> displayable f -> displayable (point_add h f) ->
  exists vr, verifyPartition (Some d) (Some h) (Some f) = Ok vr.
Proof.
  intros Hd Hh Hf Hs. unfold verifyPartition, bindR.
  destruct (coordsHex_Ok _ Hd) as [? ->]. destruct (coordsHex_Ok _ Hh) as [? ->].
  destruct (coordsHex_Ok _ Hf) as [? ->]. destruct (coordsHex_Ok _ Hs) as [? ->].
  eauto.
Qed.

(** X8. What [verifyPartition] answers. A [null] argument makes it throw
    a [TypeError]. When it returns, [valid] holds exactly when
    [C_D = C_H + C_F], the displayed result agrees with [valid], and
    exchanging [C_H] and [C_F] gives the same verdict. *)
Theorem verifyPartition_verdict :
  (forall C_D C_H C_F,
     C_D = None \/ C_H = None \/ C_F = None ->
     verifyPartition C_D C_H C_F = Throw TypeError) /\
  (forall d h f vr,
     verifyPartition (Some d) (Some h) (Some f) = Ok vr ->
     (valid vr = true <-> d = point_add h f) /\
     (pm_result (pr_math vr) = "EQUAL ✓" <-> valid vr = true) /\
     exists vr', verifyPartition (Some d) (Some f) (Some h) = Ok vr' /\
                 valid vr' = valid vr).
Proof.
  split.
  - intros [d |] [h |] [f |] Hnull; try reflexivity.
    destruct Hnull as [? | [? | ?]]; discriminate.
  - intros d h f vr Hrun.
    apply verifyPartition_inv in Hrun as (Hv & Hres & Hd & Hh & Hf & Hs).
    split; [rewrite Hv; apply point_eq_true |].
    split.
    + rewrite Hres. destruct (valid vr); split; intros; try reflexivity; discriminate.
    + destruct (verifyPartition_Ok d f h) as [vr' Hrun']; try assumption.
      { now rewrite point_add_comm. }
      exists vr'. split; [assumption |].
      apply verifyPartition_inv in Hrun' as [-> _].
      now rewrite Hv, point_add_comm.
Qed.

(** X9. In a group with cancellation, once the check accepts [C_F] for
    given [C_D] and [C_H] it accepts no other point in its place. *)
Theorem verifyPartition_binds_visible `{!Cancellative E} d h f f' vr vr' :
  verifyPartition (Some d) (Some h) (Some f) = Ok vr ->
  valid vr = true ->
  verifyPartition (Some d) (Some h) (Some f') = Ok vr' ->
  (valid vr' = true <-> f' = f).
Proof.
  intros Hrun Hvalid Hrun'.
  apply verifyPartition_inv in Hrun as [Hv _].
  apply verifyPartition_inv in Hrun' as [Hv' _].
  rewrite Hv in Hvalid. apply point_eq_true in Hvalid.
  rewrite Hv', point_eq_true, Hvalid. split.
  - intros Heq. symmetry. eapply point_add_cancel_l, Heq.
  - now intros ->.
Qed.

Lemma openingOk_inv (o : Opening) :
  openingOk o <->
  exists r x,
    Hex.parseHex (op_randomness o) = Some r /\
    point_getX (point_add
                  (point_mul G (hashToScalar (fieldMessage (op_fieldName o) (op_value o))))
                  (point_mul H r)) = Some x.
Proof.
  unfold openingOk, openingPoint. split.
  - intros (p & Hp & [x Hx]).
    destruct (Hex.parseHex (op_randomness o)) as [r |]; [| discriminate].
    injection Hp as <-. eauto.
  - intros (r & x & -> & Hx). eauto.
Qed.

Lemma recomputeLoop_char fields : forall commitment details,
  (Forall openingOk fields ->
   exists details',
     recomputeLoop fields commitment details =
       Ok {| rc_commitment := oadd commitment (osum (omap openingPoint fields));
             rc_details := details' |} /\
     map rd_field details' = (map rd_field details ++ map op_fieldName fields)%list) /\
  (forall rc, recomputeLoop fields commitment details = Ok rc ->
              Forall openingOk fields).
Proof.
  induction fields as [| o fields IH]; intros commitment details.
  - split.
    + intros _. exists details. cbn. now rewrite oadd_None_r, app_nil_r.
    + intros; constructor.
  - split.
    + intros Hall. inversion Hall as [| ? ? Ho Hrest]; subst.
      pose proof Ho as Ho'. apply openingOk_inv in Ho' as (r & x & Hr & Hx).
      cbn [recomputeLoop omap]. unfold list_omap. cbn [omap].
      fold (@list_omap Opening Point openingPoint).
      unfold openingPoint at 1. rewrite Hr, Hx.
      match goal with
      | |- context [recomputeLoop fields ?c ?d] =>
          destruct (proj1 (IH c d) Hrest) as (details' & -> & Hd)
      end.
      exists details'. split.
      * rewrite Some_accumulate, osum_cons, <- oadd_assoc. reflexivity.
      * rewrite Hd, map_app, <- app_assoc. reflexivity.
    + intros rc Hrun. cbn [recomputeLoop] in Hrun.
      destruct (Hex.parseHex (op_randomness o)) as [r |] eqn:Hr; [| discriminate].
      match type of Hrun with
      | context [point_getX ?p] => destruct (point_getX p) as [x |] eqn:Hx
      end; [| discriminate].
      constructor.
      * apply openingOk_inv. eauto.
      * eapply (proj2 (IH _ _)), Hrun.
Qed.

(** X10. When every opening has hexadecimal randomness and a point
    whose abscissa the library gives, [recomputeCommitment] returns the
    sum of the openings' points, [null] exactly for the empty list, and
    one detail per opening, in order. *)
Theorem recomputeCommitment_returns (fields : list Opening) :
  Forall openingOk fields ->
  exists rc,
    recomputeCommitment fields = Ok rc /\
    rc_commitment rc = osum (omap openingPoint fields) /\
    (rc_commitment rc = None <-> fields = []) /\
    map rd_field (rc_details rc) = map op_fieldName fields.
Proof.
  unfold recomputeCommitment. intros Hall.
  destruct (recomputeLoop_char fields None []) as [Hok _].
  destruct (Hok Hall) as (details' & Hrun & Hd).
  eexists. split; [exact Hrun |]. cbn.
  split; [reflexivity |]. split; [| exact Hd].
  destruct fields as [| o fields]; [cbn; tauto |].
  inversion Hall as [| ? ? Ho _]; subst.
  destruct Ho as (p & Hp & _).
  change (omap openingPoint (o :: fields)) with
    (match openingPoint o with
     | Some y => y :: omap openingPoint fields
     | None => omap openingPoint fields
     end).
  rewrite Hp. destruct (osum_cons_Some p (omap openingPoint fields)) as [s ->].
  split; discriminate.
Qed.


End SubsetFacts.

(** * Further properties of server.js *)

Section IssuanceFacts.
Context {E : CurveLib} {L : ServerLibs}.

Lemma serializeFieldCommitments_keys fcs : forall out,
  serializeFieldCommitments fcs = Ok out -> objKeys out = objKeys fcs.
Proof.
  induction fcs as [| [k v] fcs IH]; intros out; cbn.
  - intros [= <-]. reflexivity.
  - unfold bindR. destruct (coordsHex (fc_commitment v)); [| discriminate].
    destruct (serializeFieldCommitments fcs); [| discriminate].
    intros [= <-]. cbn. f_equal. now apply IH.
Qed.

(** What an issuance does once the citizen and the policy are found. *)
Lemma tokenCreate_found now req s record policy :
  citizenDB s !! req_citizenId req = Some record ->
  POLICIES s !! req_policyId req = Some policy ->
  let g1 := {| draws := draws (rng s); used := S (used (rng s)) |} in
  let tokenId :=
    Hex.padStart 32
      (Hex.toString16 (draws (rng s) (used (rng s)) mod 2 ^ (8 * Z.of_nat 16))) in
  (exists e g2,
     commitRecord record g1 = (Throw e, g2) /\
     tokenCreate now req s =
       (Create500 e,
        {| SERVER_SECRET := SERVER_SECRET s; tokenStore := tokenStore s;
           citizenDB := citizenDB s; POLICIES := POLICIES s; rng := g2 |})) \/
  (exists cr g2,
     commitRecord record g1 = (Ok cr, g2) /\
     snd (tokenCreate now req s) =
       {| SERVER_SECRET := SERVER_SECRET s;
          tokenStore :=
            <[tokenId :=
                {| st_citizenId := req_citizenId req;
                   st_policyId := req_policyId req;
                   st_record := record;
                   st_policy := req_policyId req;
                   st_fieldCommitments := fieldCommitments cr;
                   st_recordCommitment := recordCommitment cr;
                   st_createdAt := now |}]> (tokenStore s);
          citizenDB := citizenDB s;
          POLICIES := <[req_policyId req := sortedPolicy policy]> (POLICIES s);
          rng := g2 |} /\
     ((exists e, fst (tokenCreate now req s) = Create500 e) \/
      (exists data,
         fst (tokenCreate now req s) = Create200 data /\
         cd_tokenId data = tokenId /\
         serializePoint (Some (recordCommitment cr)) = Ok (cd_recordCommitment data) /\
         serializeFieldCommitments (fieldCommitments cr) = Ok (cd_fieldCommitments data) /\
         jwt_sign
           (jwtPayloadOf tokenId (req_citizenId req) (req_policyId req)
              (cd_policyHash data) (sp_compressed (cd_recordCommitment data))
              (allowedActions policy))
           (SERVER_SECRET s) (default 3600 (req_expiresIn req)) now
           = Ok (cd_token data) /\
         cd_allowedActions data = allowedActions policy /\
         cd_math data = rc_math cr))).
Proof.
  intros Hrec Hpol g1 tokenId. subst g1 tokenId.
  unfold tokenCreate, tokenCreateBody. rewrite Hrec, Hpol.
  unfold bindM, liftRng, liftR, tokenStoreSet, sortPolicyFields, ret, randomBytes.
  cbn.
  destruct (commitRecord record _) as [[cr | e] g2] eqn:Hcr; cbn.
  - right. exists cr, g2. split; [reflexivity |].
    unfold serializePoint, bindR.
    destruct (coordsHex (recordCommitment cr)) as [xy | e]; cbn.
    + destruct (jwt_sign _ _ _ _) as [token | e] eqn:Hsign; cbn.
      * destruct (serializeFieldCommitments _) as [fcs | e] eqn:Hfcs; cbn.
        -- split; [reflexivity |]. right. eexists. split; [reflexivity |]. cbn.
           auto 10.
        -- split; [reflexivity |]. left. eauto.
      * split; [reflexivity |]. left. eauto.
    + split; [reflexivity |]. left. eauto.
  - left. exists e, g2. split; reflexivity.
Qed.


(** X13. An issuance for a citizen whose record has no field answers 500
    with the [TypeError] of [commitRecord]: the token id has been drawn,
    nothing is stored and the catalog is untouched. *)
Theorem tokenCreate_empty_record now req s policy :
  plainKey (req_citizenId req) = true ->
  plainKey (req_policyId req) = true ->
  citizenDB s !! req_citizenId req = Some [] ->
  POLICIES s !! req_policyId req = Some policy ->
  tokenCreate now req s =
    (Create500 TypeError,
     {| SERVER_SECRET := SERVER_SECRET s; tokenStore := tokenStore s;
        citizenDB := citizenDB s; POLICIES := POLICIES s;
        rng := advance (rng s) 1 |}).
Proof.
  intros _ _ Hrec Hpol.
  unfold tokenCreate, tokenCreateBody. rewrite Hrec, Hpol.
  unfold advance. rewrite Nat.add_1_r. reflexivity.
Qed.


(** The globals after an issuance, whatever it answers. *)
Lemma tokenCreate_globals now req s :
  let s' := snd (tokenCreate now req s) in
  citizenDB s' = citizenDB s /\
  SERVER_SECRET s' = SERVER_SECRET s /\
  (forall k, is_Some (POLICIES s !! k) -> is_Some (POLICIES s' !! k)) /\
  (tokenStore s' = tokenStore s \/
   exists id stored,
     tokenStore s' = <[id := stored]> (tokenStore s) /\ issued s' stored).
Proof.
  intros s'. subst s'.
  destruct (citizenDB s !! req_citizenId req) as [record |] eqn:Hrec.
  2: { unfold tokenCreate, tokenCreateBody. rewrite Hrec. cbn. auto. }
  destruct (POLICIES s !! req_policyId req) as [policy |] eqn:Hpol.
  2: { unfold tokenCreate, tokenCreateBody. rewrite Hrec, Hpol. cbn. auto. }
  destruct (tokenCreate_found now req s record policy Hrec Hpol)
    as [(e & g2 & _ & ->) | (cr & g2 & Hcr & -> & _)]; cbn; [auto |].
  split; [reflexivity |]. split; [reflexivity |]. split.
  - intros k Hk. destruct (decide (req_policyId req = k)) as [-> | Hne].
    + rewrite lookup_insert_eq. eauto.
    + now rewrite lookup_insert_ne.
  - right. eexists _, _. split; [reflexivity |].
    split; [exact Hrec |]. split; [reflexivity |]. cbn.
    split; [rewrite lookup_insert_eq; eauto |]. eauto 10.
Qed.

Lemma serve_globals r s :
  citizenDB (serve r s) = citizenDB s /\
  SERVER_SECRET (serve r s) = SERVER_SECRET s /\
  (forall k, is_Some (POLICIES s !! k) -> is_Some (POLICIES (serve r s) !! k)) /\
  (tokenStore (serve r s) = tokenStore s \/
   exists id stored,
     tokenStore (serve r s) = <[id := stored]> (tokenStore s) /\
     issued (serve r s) stored).
Proof.
  destruct r as [now req | now token |]; cbn; [apply tokenCreate_globals | auto..].
Qed.

(** X14. Over any sequence of requests the citizen database and the
    signing secret stay as they were, and a token once stored is never
    removed. *)
Theorem serveAll_frame rs : forall s,
  Forall (fun r => plainRequest r = true) rs ->
  citizenDB (serveAll rs s) = citizenDB s /\
  SERVER_SECRET (serveAll rs s) = SERVER_SECRET s /\
  forall id, is_Some (tokenStore s !! id) ->
             is_Some (tokenStore (serveAll rs s) !! id).
Proof.
  induction rs as [| r rs IH]; intros s Hplain; [cbn; auto |].
  inversion Hplain as [| ? ? _ Hrest]; subst.
  destruct (serve_globals r s) as (Hdb & Hsec & _ & Hstore).
  destruct (IH (serve r s) Hrest) as (Hdb' & Hsec' & Hkeep).
  change (serveAll (r :: rs) s) with (serveAll rs (serve r s)).
  rewrite Hdb', Hsec', Hdb, Hsec. split; [reflexivity |].
  split; [reflexivity |].
  intros id Hid. apply Hkeep.
  destruct Hstore as [-> | (id' & stored & -> & _)]; [exact Hid |].
  destruct (decide (id' = id)) as [-> | Hne].
  - rewrite lookup_insert_eq. eauto.
  - now rewrite lookup_insert_ne.
Qed.

Lemma reordered_refl p : reordered p p.
Proof. repeat split; reflexivity. Qed.

Lemma reordered_sortedPolicy p p' : reordered p p' -> reordered p (sortedPolicy p').
Proof.
  intros (Hn & Hd & Ha & Hv & Hh). repeat split; cbn; try assumption.
  - now rewrite arraySort_Permutation.
  - now rewrite arraySort_Permutation.
Qed.

(** X15. Over any sequence of requests the catalog keeps its keys, and
    each entry keeps its name, description, actions and the members of
    its two field arrays: requests change at most the order of those
    arrays. *)
Theorem serveAll_reorders_catalog rs : forall s,
  Forall (fun r => plainRequest r = true) rs ->
  forall policyId,
    match POLICIES s !! policyId with
    | Some p => exists p', POLICIES (serveAll rs s) !! policyId = Some p' /\
                           reordered p p'
    | None => POLICIES (serveAll rs s) !! policyId = None
    end.
Proof.
  induction rs as [| r rs IH]; intros s Hplain policyId.
  - cbn. destruct (POLICIES s !! policyId) as [p |]; eauto using reordered_refl.
  - inversion Hplain as [| ? ? _ Hrest]; subst.
    change (serveAll (r :: rs) s) with (serveAll rs (serve r s)).
    specialize (IH (serve r s) Hrest policyId).
    destruct (serve_policies r s) as [Heq | (pid & q & Hq & Heq)];
      rewrite Heq in IH; [exact IH |].
    destruct (decide (pid = policyId)) as [-> | Hne].
    + rewrite lookup_insert_eq in IH. rewrite Hq.
      destruct IH as (p' & Hp' & Hre). exists p'. split; [exact Hp' |].
      destruct Hre as (Hn & Hd & Ha & Hv & Hh). cbn in *.
      repeat split; try assumption.
      * now rewrite Hv, arraySort_Permutation.
      * now rewrite Hh, arraySort_Permutation.
    + now rewrite lookup_insert_ne in IH.
Qed.


(** X17. What a successful issuance leaves behind: the token id is 32
    characters long; the entry stored under it holds the citizen's
    record and the commitments of one run of [commitRecord]; the
    commitment shown in the answer is the stored one; and the signed
    payload names that token id and carries that commitment. *)
Theorem issuance_is_stored now req s data s' :
  plainKey (req_citizenId req) = true ->
  plainKey (req_policyId req) = true ->
  tokenCreate now req s = (Create200 data, s') ->
  String.length (cd_tokenId data) = 32%nat /\
  exists stored,
    tokenStore s' !! cd_tokenId data = Some stored /\
    issued s' stored /\
    st_citizenId stored = req_citizenId req /\
    st_policyId stored = req_policyId req /\
    st_createdAt stored = now /\
    sp_compressed (cd_recordCommitment data) = point_encode (st_recordCommitment stored) /\
    objKeys (cd_fieldCommitments data) = objKeys (st_fieldCommitments stored) /\
    exists payload,
      jwt_sign payload (SERVER_SECRET s) (default 3600 (req_expiresIn req)) now
        = Ok (cd_token data) /\
      jti payload = cd_tokenId data /\
      jp_policy payload = req_policyId req /\
      jp_commitment payload = point_encode (st_recordCommitment stored) /\
      jp_actions payload = cd_allowedActions data.
Proof.
  intros _ _ Hrun.
  destruct (citizenDB s !! req_citizenId req) as [record |] eqn:Hrec.
  2: { unfold tokenCreate, tokenCreateBody in Hrun. rewrite Hrec in Hrun.
       discriminate. }
  destruct (POLICIES s !! req_policyId req) as [policy |] eqn:Hpol.
  2: { unfold tokenCreate, tokenCreateBody in Hrun. rewrite Hrec, Hpol in Hrun.
       discriminate. }
  destruct (tokenCreate_found now req s record policy Hrec Hpol)
    as [(e & g2 & _ & Heq) | (cr & g2 & Hcr & Hs' & Hans)].
  { rewrite Heq in Hrun. discriminate. }
  rewrite Hrun in Hs', Hans. cbn [fst snd] in Hs', Hans.
  destruct Hans as [[e He] | (data' & [= <-] & Hid & Hsp & Hfcs & Hsign & Hact & _)];
    [discriminate |].
  assert (Hcomp : sp_compressed (cd_recordCommitment data) =
                  point_encode (recordCommitment cr)).
  { unfold serializePoint, bindR in Hsp.
    destruct (coordsHex (recordCommitment cr)); [| discriminate].
    injection Hsp as <-. reflexivity. }
  split.
  { rewrite Hid. apply HexWidth.length_padStart_toString16; [lia |].
    change (16 ^ Z.of_nat 32) with (2 ^ (8 * Z.of_nat 16)).
    apply Z.mod_pos_bound. lia. }
  eexists. rewrite Hs', Hid. cbn [tokenStore]. split; [apply lookup_insert_eq |].
  split.
  { split; [exact Hrec |]. split; [reflexivity |]. cbn.
    split; [rewrite lookup_insert_eq; eauto |]. eauto 10. }
  cbn. repeat (split; [reflexivity |]). split; [exact Hcomp |].
  split; [eapply serializeFieldCommitments_keys, Hfcs |].
  eexists. split; [exact Hsign |]. cbn.
  rewrite Hcomp, Hact. auto.
Qed.

End IssuanceFacts.

Section RedemptionFacts.
Context {E : CurveLib} {L : ServerLibs} {Laws : CurveLaws E}.

Lemma objGet_objSet {A} (o : list (string * A)) k v k' :
  objGet (objSet k v o) k' = if String.eqb k' k then Some v else objGet o k'.
Proof.
  induction o as [| [k0 v0] o IH]; cbn; [reflexivity |].
  destruct (String.eqb k k0) eqn:Hk; cbn.
  - apply String.eqb_eq in Hk. subst k0.
    destruct (String.eqb k' k); reflexivity.
  - rewrite IH. destruct (String.eqb k' k0) eqn:Hk0; [| reflexivity].
    apply String.eqb_eq in Hk0. subst k0.
    destruct (String.eqb k' k) eqn:Hk'; [| reflexivity].
    apply String.eqb_eq in Hk'. subst k'. rewrite String.eqb_refl in Hk.
    discriminate.
Qed.

(** What the loop over the visible fields leaves in [filteredData]. *)
Lemma visibleLoop_filtered record fcs fields : forall fd proof fd' proof',
  visibleLoop record fcs fields fd proof = Ok (fd', proof') ->
  forall k,
    objGet fd' k =
      if bool_decide (k ∈ fields)
      then match objGet record k with Some v => Some v | None => objGet fd k end
      else objGet fd k.
Proof.
  induction fields as [| f fields IH]; intros fd proof fd' proof' Hrun k.
  - cbn in Hrun. injection Hrun as <- <-. reflexivity.
  - cbn [visibleLoop] in Hrun.
    destruct (objGet record f) as [v |] eqn:Hv.
    + destruct (objGet fcs f) as [fc |]; [| discriminate].
      rewrite (IH _ _ _ _ Hrun k), objGet_objSet.
      destruct (String.eqb k f) eqn:Hkf.
      * apply String.eqb_eq in Hkf. subst k. rewrite Hv.
        rewrite (bool_decide_eq_true_2 (f ∈ f :: fields)) by apply list_elem_of_here.
        now destruct (bool_decide (f ∈ fields)).
      * apply String.eqb_neq in Hkf.
        rewrite (bool_decide_ext (k ∈ f :: fields) (k ∈ fields)); [reflexivity |].
        rewrite elem_of_cons. tauto.
    + rewrite (IH _ _ _ _ Hrun k).
      destruct (decide (k = f)) as [-> | Hkf].
      * rewrite Hv.
        rewrite (bool_decide_eq_true_2 (f ∈ f :: fields)) by apply list_elem_of_here.
        now destruct (bool_decide (f ∈ fields)).
      * rewrite (bool_decide_ext (k ∈ f :: fields) (k ∈ fields)); [reflexivity |].
        rewrite elem_of_cons. tauto.
Qed.

Lemma visibleLoop_throws record fcs fields : forall fd proof e,
  visibleLoop record fcs fields fd proof = Throw e -> e = TypeError.
Proof.
  induction fields as [| f fields IH]; intros fd proof e; cbn; [discriminate |].
  destruct (objGet record f); [| apply IH].
  destruct (objGet fcs f); [apply IH |]. now intros [= <-].
Qed.

(** On commitments that [commitRecord] stored for the record, the loop
    discloses the honest openings of the visible fields present. *)
Lemma visibleLoop_honest record fcs fields :
  (forall k fc, objGet fcs k = Some fc ->
     exists v, objGet record k = Some v /\ fc_value fc = v) ->
  forall fd proof fd' proof',
  visibleLoop record fcs fields fd proof = Ok (fd', proof') ->
  proof' = (proof ++ honestOpenings fcs (presentFields record fields))%list.
Proof.
  intros Hfcs. unfold presentFields.
  induction fields as [| f fields IH]; intros fd proof fd' proof' Hrun.
  - cbn in Hrun. injection Hrun as <- <-. now rewrite app_nil_r.
  - cbn [visibleLoop] in Hrun.
    destruct (objGet record f) as [v |] eqn:Hv.
    + destruct (objGet fcs f) as [fc |] eqn:Hfc; [| discriminate].
      rewrite filter_cons_True by (unfold inRecord; rewrite Hv; exact I).
      rewrite honestOpenings_cons, Hfc.
      destruct (Hfcs _ _ Hfc) as (v' & Hv' & ->).
      rewrite Hv in Hv'. injection Hv' as <-.
      rewrite (IH _ _ _ _ Hrun), <- app_assoc. reflexivity.
    + rewrite filter_cons_False by (unfold inRecord; rewrite Hv; intros []).
      eapply IH, Hrun.
Qed.

Lemma delegate_stored now token s payload stored policy :
  jwt_verify token (SERVER_SECRET s) now = inr payload ->
  tokenStore s !! jti payload = Some stored ->
  POLICIES s !! st_policy stored = Some policy ->
  delegate now token s =
    match delegateStored payload stored policy with
    | Ok resp => resp
    | Throw e => Delegate500 e
    end.
Proof. intros Hjwt Hst Hpol. unfold delegate, delegateBody. now rewrite Hjwt, Hst, Hpol. Qed.

Lemma serializePoint_inv (p : Point) sp :
  serializePoint (Some p) = Ok sp ->
  sp_compressed sp = point_encode p /\ displayable p.
Proof.
  unfold serializePoint, bindR.
  destruct (coordsHex p) eqn:Hp; [| discriminate].
  intros [= <-]. split; [reflexivity |]. eapply coordsHex_displayable, Hp.
Qed.

(** What a redemption has computed when it answers. *)
Lemma delegateStored_inv payload stored policy resp :
  delegateStored payload stored policy = Ok resp ->
  exists fd proof h f vr spD spH spV,
    visibleLoop (st_record stored) (st_fieldCommitments stored)
      (visibleFields policy) [] [] = Ok (fd, proof) /\
    sc_commitment (computeSubsetCommitment (st_fieldCommitments stored)
                     (presentFields (st_record stored) (hiddenFields policy))) = Some h /\
    sc_commitment (computeSubsetCommitment (st_fieldCommitments stored)
                     (presentFields (st_record stored) (visibleFields policy))) = Some f /\
    verifyPartition (Some (st_recordCommitment stored)) (Some h) (Some f) = Ok vr /\
    serializePoint (Some (st_recordCommitment stored)) = Ok spD /\
    serializePoint (Some h) = Ok spH /\
    serializePoint (Some f) = Ok spV /\
    resp = Delegate200
             {| filteredRecord := fd;
                dd_allowedActions := allowedActions policy;
                dd_proof :=
                  {| dp_recordCommitment := spD;
                     dp_hiddenCommitment := spH;
                     dp_visibleCommitment := spV;
                     dp_visibleFields := proof;
                     dp_hiddenFieldCount :=
                       length (presentFields (st_record stored) (hiddenFields policy));
                     dp_verification := pr_math vr |};
                dd_policyName := p_name policy;
                dd_policyHash := jp_policyHash payload |}.
Proof.
  unfold delegateStored, presentFields.
  destruct (visibleLoop _ _ _ _ _) as [[fd proof] | e] eqn:Hloop; [| discriminate].
  cbn [bindR fst snd].
  destruct (sc_commitment (computeSubsetCommitment _ (filter _ (hiddenFields policy))))
    as [h |] eqn:Hh; [| discriminate].
  destruct (sc_commitment (computeSubsetCommitment _ (filter _ (visibleFields policy))))
    as [f |] eqn:Hf; [| discriminate].
  destruct (verifyPartition _ _ _) as [vr |] eqn:Hvr; [| discriminate].
  cbn [bindR].
  destruct (serializePoint (Some (st_recordCommitment stored))) as [spD |] eqn:HspD;
    [| discriminate].
  destruct (serializePoint (Some h)) as [spH |] eqn:HspH; [| discriminate].
  destruct (serializePoint (Some f)) as [spV |] eqn:HspV; [| discriminate].
  cbn [bindR]. intros [= <-].
  exists fd, proof, h, f, vr, spD, spH, spV. auto 10.
Qed.

(** X18. A redemption under a policy none of whose hidden fields, or
    none of whose visible fields, is in the record answers 500 with a
    [TypeError]: one part of the partition has a [null] commitment. *)
Theorem delegate_needs_both_parts now token s payload stored policy :
  jwt_verify token (SERVER_SECRET s) now = inr payload ->
  tokenStore s !! jti payload = Some stored ->
  POLICIES s !! st_policy stored = Some policy ->
  Forall (fun f => plainKey f = true) (visibleFields policy ++ hiddenFields policy) ->
  presentFields (st_record stored) (hiddenFields policy) = [] \/
  presentFields (st_record stored) (visibleFields policy) = [] ->
  delegate now token s = Delegate500 TypeError.
Proof.
  intros Hjwt Hst Hpol _ Hempty.
  rewrite (delegate_stored _ _ _ _ _ _ Hjwt Hst Hpol).
  destruct (delegateStored payload stored policy) as [resp | e] eqn:Hrun.
  - apply delegateStored_inv in Hrun
      as (fd & proof & h & f & vr & spD & spH & spV & _ & Hh & Hf & _).
    destruct Hempty as [He | He]; rewrite He in *; discriminate.
  - f_equal. unfold delegateStored in Hrun.
    destruct (visibleLoop _ _ _ _ _) as [[fd proof] | e'] eqn:Hloop.
    + cbn [bindR] in Hrun. unfold presentFields in Hempty.
      destruct Hempty as [He | He]; rewrite He in Hrun.
      * cbn in Hrun. now injection Hrun.
      * destruct (sc_commitment (computeSubsetCommitment _ (filter _ _)));
          cbn in Hrun; now injection Hrun.
    + cbn in Hrun. injection Hrun as <-. eapply visibleLoop_throws, Hloop.
Qed.

(** X19. The filtered record of a redemption holds exactly the fields of
    the record that the policy lists as visible, each with the record's
    value. *)
Theorem filteredRecord_is_visible_part now token s payload stored policy data :
  jwt_verify token (SERVER_SECRET s) now = inr payload ->
  tokenStore s !! jti payload = Some stored ->
  POLICIES s !! st_policy stored = Some policy ->
  Forall (fun f => plainKey f = true) (visibleFields policy) ->
  delegate now token s = Delegate200 data ->
  forall k,
    objGet (filteredRecord data) k =
      if bool_decide (k ∈ visibleFields policy)
      then objGet (st_record stored) k else None.
Proof.
  intros Hjwt Hst Hpol _ Hrun k.
  rewrite (delegate_stored _ _ _ _ _ _ Hjwt Hst Hpol) in Hrun.
  destruct (delegateStored payload stored policy) as [resp | e] eqn:Hds;
    [| discriminate].
  apply delegateStored_inv in Hds
    as (fd & proof & h & f & vr & spD & spH & spV & Hloop & _ & _ & _ & _ & _ & _ & ->).
  injection Hrun as <-. cbn.
  rewrite (visibleLoop_filtered _ _ _ _ _ _ _ Hloop k). cbn.
  destruct (bool_decide (k ∈ visibleFields policy)); [| reflexivity].
  now destruct (objGet (st_record stored) k).
Qed.

(** X20. A redemption answers 401 exactly when the token does not
    verify, then with the verifier's message, and 404 exactly when the
    token verifies and the store has no entry for its id. *)
Theorem delegate_rejections now token s :
  (forall msg, delegate now token s = Delegate401 msg <->
               jwt_verify token (SERVER_SECRET s) now = inl msg) /\
  (delegate now token s = Delegate404 <->
   exists payload, jwt_verify token (SERVER_SECRET s) now = inr payload /\
                   tokenStore s !! jti payload = None).
Proof.
  unfold delegate, delegateBody.
  destruct (jwt_verify token (SERVER_SECRET s) now) as [m | payload].
  - split; [intros msg; split; congruence |].
    split; [discriminate | intros (? & ? & _); discriminate].
  - destruct (tokenStore s !! jti payload) as [stored |] eqn:Hst.
    + assert (Hno : forall r,
                match POLICIES s !! st_policy stored with
                | Some policy => delegateStored payload stored policy
                | None => Throw TypeError
                end = Ok r -> exists data, r = Delegate200 data).
      { intros r. destruct (POLICIES s !! st_policy stored); [| discriminate].
        intros Hr. apply delegateStored_inv in Hr
          as (? & ? & ? & ? & ? & ? & ? & ? & _ & _ & _ & _ & _ & _ & _ & ->).
        eauto. }
      destruct (match POLICIES s !! st_policy stored with
                | Some policy => delegateStored payload stored policy
                | None => Throw TypeError
                end) as [r | e].
      * destruct (Hno r eq_refl) as [data ->].
        split; [intros msg; split; discriminate |].
        split; [discriminate |]. intros (p & [= <-] & Hnone). congruence.
      * split; [intros msg; split; discriminate |].
        split; [discriminate |]. intros (p & [= <-] & Hnone). congruence.
    + split; [intros msg; split; discriminate |].
      split; [eauto | reflexivity].
Qed.

(** X21. When the policy of an issued token covers the record, the
    verification that the redemption displays reads [EQUAL]. *)
Theorem covering_policy_displays_equal now token s payload stored policy data :
  jwt_verify token (SERVER_SECRET s) now = inr payload ->
  tokenStore s !! jti payload = Some stored ->
  POLICIES s !! st_policy stored = Some policy ->
  issued s stored ->
  NoDup (objKeys (st_record stored)) ->
  Forall (fun f => plainKey f = true) (visibleFields policy ++ hiddenFields policy) ->
  (presentFields (st_record stored) (visibleFields policy) ++
   presentFields (st_record stored) (hiddenFields policy))%list
    ≡ₚ objKeys (st_record stored) ->
  delegate now token s = Delegate200 data ->
  pm_result (dp_verification (dd_proof data)) = "EQUAL ✓".
Proof.
  intros Hjwt Hst Hpol (_ & _ & _ & g & cr & g' & Hcr & Hfcs & HC) Hnd _ Hcover Hrun.
  rewrite (delegate_stored _ _ _ _ _ _ Hjwt Hst Hpol) in Hrun.
  destruct (delegateStored payload stored policy) as [resp | e] eqn:Hds;
    [| discriminate].
  apply delegateStored_inv in Hds
    as (fd & proof & h & f & vr & spD & spH & spV & _ & Hh & Hf & Hvr & _ & _ & _ & ->).
  injection Hrun as <-. cbn.
  pose proof (partition_oadd _ _ _ _ _ _ Hnd Hcr Hcover) as Hsum.
  rewrite <- Hfcs, Hf, Hh, <- HC in Hsum. cbn in Hsum. injection Hsum as Hsum.
  apply verifyPartition_inv in Hvr as (Hvalid & -> & _).
  rewrite Hvalid, <- Hsum, point_add_comm.
  now rewrite (proj2 (point_eq_true _ _) eq_refl).
Qed.

Context {D : PointCodec E}.

(** X22. The verification endpoint reproduces a redemption. Given the
    proof of a redemption of an issued token, as the page sends it, and
    a decoder that reads back the two encoded commitments, it answers
    200: the visible commitment it recomputes from the openings is the
    one the redemption reported, its verification data are the
    redemption's, and [valid] holds exactly when the redemption
    displayed [EQUAL]. *)
Theorem redemption_verifies now token s payload stored policy data :
  jwt_verify token (SERVER_SECRET s) now = inr payload ->
  tokenStore s !! jti payload = Some stored ->
  POLICIES s !! st_policy stored = Some policy ->
  issued s stored ->
  NoDup (objKeys (st_record stored)) ->
  Forall (fun f => plainKey f = true) (visibleFields policy ++ hiddenFields policy) ->
  delegate now token s = Delegate200 data ->
  decodePoint (point_encode (st_recordCommitment stored))
    = Ok (st_recordCommitment stored) ->
  (forall h,
     sc_commitment (computeSubsetCommitment (st_fieldCommitments stored)
                      (presentFields (st_record stored) (hiddenFields policy))) = Some h ->
     decodePoint (point_encode h) = Ok h) ->
  exists vdata,
    verify (verifyProofRequest (dd_proof data)) = Verify200 vdata /\
    vd_recomputedVisible vdata = dp_visibleCommitment (dd_proof data) /\
    vd_verification vdata = dp_verification (dd_proof data) /\
    map rd_field (vd_recomputationDetails vdata) =
      map op_fieldName (dp_visibleFields (dd_proof data)) /\
    (vd_valid vdata = true <->
     pm_result (dp_verification (dd_proof data)) = "EQUAL ✓").
Proof.
  intros Hjwt Hst Hpol (_ & _ & _ & g & cr & g' & Hcr & Hfcs & HC) Hnd _ Hrun HdecD HdecH.
  rewrite (delegate_stored _ _ _ _ _ _ Hjwt Hst Hpol) in Hrun.
  destruct (delegateStored payload stored policy) as [resp | e] eqn:Hds;
    [| discriminate].
  apply delegateStored_inv in Hds
    as (fd & proof & h & f & vr & spD & spH & spV
        & Hloop & Hh & Hf & Hvr & HspD & HspH & HspV & ->).
  injection Hrun as <-.
  destruct (commitRecord_inv _ _ _ _ Hnd Hcr) as (Hall & _ & _).
  rewrite <- Hfcs in Hall.
  assert (Hstored : forall n fc,
            objGet (st_fieldCommitments stored) n = Some fc ->
            exists v, objGet (st_record stored) n = Some v /\
                      commitsTo n v fc /\ 0 <= fc_randomness fc)
    by (intros n fc; apply storedFor_lookup, Hall).
  apply visibleLoop_honest in Hloop.
  2: { intros k fc Hk. destruct (Hstored _ _ Hk) as (v & Hv & (_ & Hval & _) & _).
       eauto. }
  cbn [app] in Hloop. subst proof.
  set (V := presentFields (st_record stored) (visibleFields policy)) in *.
  destruct (recomputeLoop_char (honestOpenings (st_fieldCommitments stored) V) None [])
    as [Hok Hinv].
  destruct (recomputeLoop_honest (st_fieldCommitments stored)) with (V := V)
    (commitment := @None Point) (details := @nil RecomputeDetail)
    as [details Hrec].
  { intros n fc Hk. destruct (Hstored _ _ Hk) as (v & _ & Hc & Hr). eauto. }
  destruct (Hok (Hinv _ Hrec)) as (details' & Hrec' & Hnames).
  rewrite Hrec in Hrec'. injection Hrec' as _ <-.
  cbn [oadd] in Hrec. rewrite <- computeSubsetCommitment_osum, Hf in Hrec.
  apply serializePoint_inv in HspD as [HcD _].
  apply serializePoint_inv in HspH as [HcH _].
  pose proof (verifyPartition_inv _ _ _ _ Hvr) as (_ & Hres & _).
  eexists. split.
  - unfold verify, verifyBody, verifyProofRequest, recomputeCommitment.
    cbn [vq_visibleFields vq_recordCommitment vq_hiddenCommitment dd_proof
         dp_visibleFields dp_recordCommitment dp_hiddenCommitment deserializePoint].
    rewrite Hrec, HcD, HcH, HdecD, (HdecH _ Hh). cbn [bindR rc_commitment rc_details].
    rewrite Hvr, HspV. cbn [bindR]. reflexivity.
  - cbn. split; [reflexivity |]. split; [reflexivity |]. split; [exact Hnames |].
    rewrite Hres. destruct (valid vr); split; intros; try reflexivity; discriminate.
Qed.

(** X23. An answer of the verification endpoint is sound: when it
    answers 200 for openings with hexadecimal randomness, both
    commitments decoded, the openings add up to a point [C_F], and
    [valid] holds exactly when [C_D = C_H + C_F]. *)
Theorem verify_sound (req : VerifyRequest) vdata :
  Forall (fun o => is_Some (Hex.parseHex (op_randomness o))) (vq_visibleFields req) ->
  verify req = Verify200 vdata ->
  exists d h f,
    deserializePoint (vq_recordCommitment req) = Ok d /\
    deserializePoint (vq_hiddenCommitment req) = Ok h /\
    osum (omap openingPoint (vq_visibleFields req)) = Some f /\
    (vd_valid vdata = true <-> d = point_add h f).
Proof.
  intros _. unfold verify.
  destruct (verifyBody req) as [resp | e] eqn:Hbody; [| discriminate].
  intros ->. unfold verifyBody, recomputeCommitment in Hbody.
  destruct (recomputeLoop (vq_visibleFields req) None []) as [rc |] eqn:Hrec;
    [| discriminate].
  cbn [bindR] in Hbody.
  destruct (deserializePoint (vq_recordCommitment req)) as [d |]; [| discriminate].
  destruct (deserializePoint (vq_hiddenCommitment req)) as [h |]; [| discriminate].
  cbn [bindR] in Hbody.
  destruct (rc_commitment rc) as [f |] eqn:Hf; [| discriminate].
  destruct (verifyPartition (Some d) (Some h) (Some f)) as [vr |] eqn:Hvr;
    [| discriminate].
  cbn [bindR] in Hbody.
  destruct (serializePoint (Some f)); [| discriminate].
  injection Hbody as <-. cbn.
  destruct (recomputeLoop_char (vq_visibleFields req) None []) as [Hok Hinv].
  destruct (Hok (Hinv _ Hrec)) as (details' & Hrec' & _).
  rewrite Hrec in Hrec'. injection Hrec' as ->. cbn in Hf.
  exists d, h, f. repeat (split; [first [reflexivity | assumption] |]).
  apply verifyPartition_inv in Hvr as (-> & _). apply point_eq_true.
Qed.

(** X24. The verification endpoint never accepts a request without
    openings: it answers 500, with a [TypeError] once both commitments
    have been decoded. *)
Theorem verify_without_openings (req : VerifyRequest) :
  vq_visibleFields req = [] ->
  exists e,
    verify req = Verify500 e /\
    forall d h,
      deserializePoint (vq_recordCommitment req) = Ok d ->
      deserializePoint (vq_hiddenCommitment req) = Ok h ->
      e = TypeError.
Proof.
  intros Hnone. unfold verify, verifyBody. rewrite Hnone. cbn.
  destruct (deserializePoint (vq_recordCommitment req)) as [d | e1]; cbn.
  - destruct (deserializePoint (vq_hiddenCommitment req)) as [h | e2]; cbn.
    + eauto.
    + eexists. split; [reflexivity |]. discriminate.
  - eexists. split; [reflexivity |]. discriminate.
Qed.

End RedemptionFacts.

(** * The second generator *)

Section Equivocation.
Context {E : CurveLib} {Laws : CurveLaws E}.
Context {SL : ScalarLaws E} {SA : ScalarAction E}.

(** [h] is the multiple [H_seed] of [g], so a commitment is a multiple
    of [g] alone. *)
Lemma pedersenCommitment_multiple n v r :
  pedersenCommitment n v r =
    point_mul G ((hashToScalar (fieldMessage n v) + H_seed * r) mod ec_n).
Proof.
  unfold pedersenCommitment, H, G.
  rewrite point_mul_mod, point_mul_add, point_mul_mul, fieldMessage_unfold.
  reflexivity.
Qed.

Lemma equivocation_scalar (m m' r k : Z) :
  (H_seed * k) mod ec_n = 1 mod ec_n ->
  (m' + H_seed * ((r + (m - m') * k) mod ec_n)) mod ec_n = (m + H_seed * r) mod ec_n.
Proof.
  intros Hk. pose proof ec_n_pos as Hn.
  assert (Hne : ec_n <> 0) by lia.
  pose proof (Z.div_mod (H_seed * k) ec_n Hne) as Hsk.
  pose proof (Z.div_mod 1 ec_n Hne) as H1.
  rewrite Hk in Hsk.
  assert (Hunit : H_seed * k = 1 + ec_n * (H_seed * k / ec_n - 1 / ec_n))
    by (rewrite Z.mul_sub_distr_l; lia).
  rewrite (Z.mod_eq (r + (m - m') * k) ec_n) by lia.
  set (q1 := (r + (m - m') * k) / ec_n).
  set (q2 := H_seed * k / ec_n - 1 / ec_n) in Hunit.
  replace (m' + H_seed * (r + (m - m') * k - ec_n * q1))
    with (m + H_seed * r + ((m - m') * q2 - H_seed * q1) * ec_n).
  - apply Z_mod_plus_full.
  - replace (H_seed * (r + (m - m') * k - ec_n * q1))
      with (H_seed * r + (m - m') * (H_seed * k) - H_seed * ec_n * q1) by ring.
    rewrite Hunit. ring.
Qed.

(** X25. The commitments are not binding for whoever reads the source:
    [h] is [g] multiplied by the digest of a fixed text, so a field
    commitment depends only on [m + H_seed·r] modulo the group order.
    With [k] an inverse of [H_seed], a commitment to [(n, v)] under [r]
    is also the commitment to any other value [v'] under the blinding
    factor [r + (m - m')·k], and [recomputeCommitment] returns the same
    point for the two openings. *)
Theorem commitment_opens_to_any_value (n v v' : string) (r k : Z) :
  (H_seed * k) mod ec_n = 1 mod ec_n ->
  let r' := (r + (hashToScalar (fieldMessage n v)
                  - hashToScalar (fieldMessage n v')) * k) mod ec_n in
  0 <= r' < ec_n /\
  pedersenCommitment n v' r' = pedersenCommitment n v r /\
  (0 <= r ->
   forall rest rc,
     recomputeCommitment
       ({| op_fieldName := n; op_value := v; op_randomness := serializeBN r |} :: rest)
       = Ok rc ->
     exists rc',
       recomputeCommitment
         ({| op_fieldName := n; op_value := v'; op_randomness := serializeBN r' |} :: rest)
         = Ok rc' /\
       rc_commitment rc' = rc_commitment rc).
Proof.
  intros Hk r'.
  assert (Hr' : 0 <= r' < ec_n) by apply Z.mod_pos_bound, ec_n_pos.
  assert (Hsame : pedersenCommitment n v' r' = pedersenCommitment n v r).
  { rewrite !pedersenCommitment_multiple. f_equal.
    now apply equivocation_scalar. }
  split; [exact Hr' |]. split; [exact Hsame |].
  intros Hr rest rc Hrun. unfold recomputeCommitment in *.
  set (o := {| op_fieldName := n; op_value := v; op_randomness := serializeBN r |}) in *.
  set (o' := {| op_fieldName := n; op_value := v'; op_randomness := serializeBN r' |}).
  assert (Hpoint : openingPoint o' = openingPoint o).
  { unfold openingPoint, o, o'. cbn [op_randomness op_fieldName op_value].
    unfold serializeBN. rewrite !HexFacts.parseHex_hex64 by lia.
    f_equal. unfold pedersenCommitment in Hsame.
    rewrite !fieldMessage_unfold. exact Hsame. }
  destruct (recomputeLoop_char (o :: rest) None []) as [Hok Hinv].
  pose proof (Hinv _ Hrun) as Hall.
  destruct (Hok Hall) as (details & Hrun1 & _).
  rewrite Hrun1 in Hrun. injection Hrun as <-.
  destruct (recomputeLoop_char (o' :: rest) None []) as [Hok' _].
  destruct Hok' as (details' & -> & _).
  { inversion Hall as [| ? ? Ho Hrest]; subst. constructor; [| exact Hrest].
    unfold openingOk in *. now rewrite Hpoint. }
  eexists. split; [reflexivity |]. cbn [rc_commitment].
  change (omap openingPoint (?x :: rest)) with
    (match openingPoint x with
     | Some y => y :: omap openingPoint rest
     | None => omap openingPoint rest
     end).
  now rewrite Hpoint.
Qed.

End Equivocation.

(** * The further properties on concrete inputs *)

#[export] Instance residues_scalar_laws : ScalarLaws Residues.curve.
Proof.
  split; cbn; unfold Residues.q; intros.
  - rewrite Z.mul_add_distr_l. apply Zplus_mod.
  - apply Z.mul_mod_idemp_r. lia.
Qed.

#[export] Instance integers_laws : CurveLaws Integers.curve.
Proof.
  split; cbn.
  - intros. apply Z.add_assoc.
  - intros. apply Z.add_comm.
  - intros. apply Z.eqb_eq.
  - lia.
Qed.

#[export] Instance integers_cancellative : Cancellative Integers.curve.
Proof. split; cbn. intros p q r Heq. lia. Qed.

Module MoreExamples.
Import Residues Scenarios MoreScenarios ResiduesCodec.

Lemma serializeBN_roundtrip_witness : deserializeBN (serializeBN 48879) = Some 48879.
Proof. apply (serializeBN_roundtrip 48879). lia. Defined.

Lemma serializeBN_width_witness : String.length (serializeBN 48879) = 64%nat.
Proof. apply (serializeBN_width 48879). split; [lia | reflexivity]. Defined.

Lemma scalars_in_range_witness :
  0 <= hashToScalar "name||Ahmed" < ec_n /\
  exists r, randomScalar rng0 = (Ok r, advance rng0 1) /\
            r = drawnScalar rng0 0 /\ 0 <= r < ec_n.
Proof. exact (scalars_in_range "name||Ahmed" rng0). Defined.

Lemma commitRecord_opens_with_totals_witness :
  match commitRecord contact rng0 with
  | (Ok cr, _) =>
      exists totalM totalR,
        Hex.parseHex (rm_totalM (rc_math cr)) = Some totalM /\
        Hex.parseHex (rm_totalR (rc_math cr)) = Some totalR /\
        0 <= totalM < ec_n /\ 0 <= totalR < ec_n /\
        recordCommitment cr = point_add (point_mul G totalM) (point_mul H totalR)
  | (Throw _, _) => False
  end.
Proof.
  destruct (commitRecord contact rng0) as [[cr | e] g'] eqn:Hrun.
  - exact (commitRecord_opens_with_totals contact rng0 cr g' Hrun).
  - vm_compute in Hrun. discriminate.
Defined.

Lemma commitRecord_stores_every_field_witness :
  match commitRecord contact rng0 with
  | (Ok cr, g') =>
      g' = advance rng0 (length contact) /\
      objKeys (fieldCommitments cr) = objKeys contact /\
      rm_fieldCount (rc_math cr) = length contact /\
      forall i n v, contact !! i = Some (n, v) ->
        exists fc,
          objGet (fieldCommitments cr) n = Some fc /\
          fc_fieldName fc = n /\ fc_value fc = v /\
          fc_randomness fc = drawnScalar rng0 i /\
          fc_commitment fc = pedersenCommitment n v (drawnScalar rng0 i)
  | (Throw _, _) => False
  end.
Proof.
  destruct (commitRecord contact rng0) as [[cr | e] g'] eqn:Hrun.
  - apply (commitRecord_stores_every_field contact rng0 cr g').
    + exact Examples.NoDup_contact.
    + repeat constructor.
    + exact Hrun.
  - vm_compute in Hrun. discriminate.
Defined.

Lemma computeSubsetCommitment_included_witness :
  match commitRecord contact rng0 with
  | (Ok cr, _) =>
      sc_included (computeSubsetCommitment (fieldCommitments cr)
                     ["email"; "passport"; "name"; "email"]) =
        filter (fun n => hasEntry (fieldCommitments cr) n)
          ["email"; "passport"; "name"; "email"] /\
      (sc_commitment (computeSubsetCommitment (fieldCommitments cr)
                        ["email"; "passport"; "name"; "email"]) = None <->
       sc_included (computeSubsetCommitment (fieldCommitments cr)
                      ["email"; "passport"; "name"; "email"]) = [])
  | (Throw _, _) => False
  end.
Proof.
  destruct (commitRecord contact rng0) as [[cr | e] g'] eqn:Hrun.
  - apply (computeSubsetCommitment_included (fieldCommitments cr)
             ["email"; "passport"; "name"; "email"]).
    repeat constructor.
  - vm_compute in Hrun. discriminate.
Defined.

Lemma computeSubsetCommitment_order_witness :
  match commitRecord contact rng0 with
  | (Ok cr, _) =>
      sc_commitment (computeSubsetCommitment (fieldCommitments cr) ["email"; "name"]) =
      sc_commitment (computeSubsetCommitment (fieldCommitments cr) ["name"; "email"])
  | (Throw _, _) => False
  end.
Proof.
  destruct (commitRecord contact rng0) as [[cr | e] g'] eqn:Hrun.
  - apply (computeSubsetCommitment_order (fieldCommitments cr)
             ["email"; "name"] ["name"; "email"]).
    + repeat constructor.
    + apply Permutation_swap.
  - vm_compute in Hrun. discriminate.
Defined.

Lemma verifyPartition_verdict_witness :
  verifyPartition (Some 700) None (Some 228) = Throw TypeError /\
  forall vr,
    verifyPartition (Some 700) (Some 42) (Some 228) = Ok vr ->
    (valid vr = true <-> 700 = point_add 42 228) /\
    (pm_result (pr_math vr) = "EQUAL ✓" <-> valid vr = true) /\
    exists vr', verifyPartition (Some 700) (Some 228) (Some 42) = Ok vr' /\
                valid vr' = valid vr.
Proof.
  destruct (verifyPartition_verdict (E := curve)) as [Hnull Hverdict]. split.
  - apply Hnull. auto.
  - intros vr. apply Hverdict.
Defined.

Lemma recomputeCommitment_returns_witness :
  exists rc,
    recomputeCommitment [nameOpening; phoneOpening] = Ok rc /\
    rc_commitment rc = osum (omap openingPoint [nameOpening; phoneOpening]) /\
    (rc_commitment rc = None <-> [nameOpening; phoneOpening] = []) /\
    map rd_field (rc_details rc) = map op_fieldName [nameOpening; phoneOpening].
Proof.
  apply (recomputeCommitment_returns [nameOpening; phoneOpening]).
  repeat constructor; (eexists; split; [vm_compute; reflexivity | vm_compute; eauto]).
Defined.



Lemma tokenCreate_empty_record_witness :
  tokenCreate 1000 fieldless state2 =
    (Create500 TypeError,
     {| SERVER_SECRET := SERVER_SECRET state2; tokenStore := tokenStore state2;
        citizenDB := citizenDB state2; POLICIES := POLICIES state2;
        rng := advance (rng state2) 1 |}).
Proof.
  apply (tokenCreate_empty_record 1000 fieldless state2 idRenewal);
    [reflexivity | reflexivity | run | run].
Defined.

Lemma serveAll_frame_witness :
  let rs := [PostTokenCreate 1000 renewal; GetDelegate 2000 token0;
             PostTokenCreate 5000 renewal] in
  citizenDB (serveAll rs state0) = citizenDB state0 /\
  SERVER_SECRET (serveAll rs state0) = SERVER_SECRET state0 /\
  forall id, is_Some (tokenStore state0 !! id) ->
             is_Some (tokenStore (serveAll rs state0) !! id).
Proof.
  intros rs. apply (serveAll_frame rs state0). repeat constructor.
Defined.

Lemma serveAll_reorders_catalog_witness :
  let rs := [PostTokenCreate 1000 renewal; GetPolicies] in
  exists p', POLICIES (serveAll rs state0) !! "id-renewal" = Some p' /\
             reordered idRenewal p'.
Proof.
  intros rs.
  assert (Hplain : Forall (fun r => plainRequest r = true) rs) by repeat constructor.
  exact (serveAll_reorders_catalog rs state0 Hplain "id-renewal").
Defined.


Lemma issuance_is_stored_witness :
  let s' := snd (tokenCreate 1000 renewal state0) in
  exists data stored,
    fst (tokenCreate 1000 renewal state0) = Create200 data /\
    String.length (cd_tokenId data) = 32%nat /\
    tokenStore s' !! cd_tokenId data = Some stored /\
    issued s' stored /\
    sp_compressed (cd_recordCommitment data)
      = point_encode (st_recordCommitment stored).
Proof.
  intros s'. destruct ServerExamples.first_issuance as [data Hrun].
  destruct (issuance_is_stored 1000 renewal state0 data s' eq_refl eq_refl Hrun)
    as (Hlen & stored & Hst & Hiss & _ & _ & _ & Hcomp & _).
  exists data, stored. rewrite Hrun. auto.
Defined.

(** The redemption of the token of the first issuance. *)
Lemma renewal_redemption :
  let s := snd (tokenCreate 1000 renewal state0) in
  exists payload stored policy data,
    jwt_verify token0 (SERVER_SECRET s) 2000 = inr payload /\
    tokenStore s !! jti payload = Some stored /\
    POLICIES s !! st_policy stored = Some policy /\
    delegate 2000 token0 s = Delegate200 data /\
    issued s stored /\
    NoDup (objKeys (st_record stored)) /\
    Forall (fun f => plainKey f = true) (visibleFields policy ++ hiddenFields policy) /\
    (presentFields (st_record stored) (visibleFields policy) ++
     presentFields (st_record stored) (hiddenFields policy))%list
      ≡ₚ objKeys (st_record stored) /\
    decodePoint (point_encode (st_recordCommitment stored))
      = Ok (st_recordCommitment stored) /\
    forall h,
      sc_commitment (computeSubsetCommitment (st_fieldCommitments stored)
                       (presentFields (st_record stored) (hiddenFields policy))) = Some h ->
      decodePoint (point_encode h) = Ok h.
Proof.
  intros s. do 4 eexists.
  split; [run |]. split; [run |]. split; [run |]. split; [run |].
  split.
  { split; [run |]. split; [reflexivity |]. split; [vm_compute; eauto |].
    exists {| draws := draws rng0; used := 1 |}. do 2 eexists.
    split; [run |]. split; reflexivity. }
  split; [decide_by_running |]. split; [decide_by_running |].
  split.
  { etrans; [symmetry; apply arraySort_Permutation |].
    etrans; [| apply arraySort_Permutation]. vm_compute. reflexivity. }
  split; [run |].
  intros h Hh. vm_compute in Hh. injection Hh as <-. run.
Qed.

Lemma filteredRecord_is_visible_part_witness :
  let s := snd (tokenCreate 1000 renewal state0) in
  exists payload stored policy data,
    jwt_verify token0 (SERVER_SECRET s) 2000 = inr payload /\
    tokenStore s !! jti payload = Some stored /\
    POLICIES s !! st_policy stored = Some policy /\
    delegate 2000 token0 s = Delegate200 data /\
    forall k,
      objGet (filteredRecord data) k =
        if bool_decide (k ∈ visibleFields policy)
        then objGet (st_record stored) k else None.
Proof.
  intros s.
  destruct renewal_redemption
    as (payload & stored & policy & data & Hjwt & Hst & Hpol & Hrun & _ & _ & Hplain & _).
  apply Forall_app in Hplain as [Hplain _].
  exists payload, stored, policy, data. repeat (split; [assumption |]).
  exact (filteredRecord_is_visible_part 2000 token0 s payload stored policy data
           Hjwt Hst Hpol Hplain Hrun).
Defined.

Lemma delegate_needs_both_parts_witness :
  delegate 2000 token0 (snd (tokenCreate 1000 everything state3))
    = Delegate500 TypeError.
Proof.
  eapply (delegate_needs_both_parts 2000 token0).
  - run.
  - run.
  - run.
  - repeat constructor.
  - left. run.
Defined.

Lemma delegate_rejections_witness :
  delegate 2000 "3e8" state0 = Delegate401 "jwt malformed" /\
  delegate 2000 token0 state0 = Delegate404.
Proof.
  destruct (delegate_rejections 2000 "3e8" state0) as [H401 _].
  destruct (delegate_rejections 2000 token0 state0) as [_ H404].
  split.
  - apply H401. run.
  - apply H404. eexists. split; run.
Defined.

Lemma covering_policy_displays_equal_witness :
  let s := snd (tokenCreate 1000 renewal state0) in
  exists data,
    delegate 2000 token0 s = Delegate200 data /\
    pm_result (dp_verification (dd_proof data)) = "EQUAL ✓".
Proof.
  intros s.
  destruct renewal_redemption
    as (payload & stored & policy & data & Hjwt & Hst & Hpol & Hrun & Hiss & Hnd
        & Hplain & Hcover & _).
  exists data. split; [exact Hrun |].
  exact (covering_policy_displays_equal 2000 token0 s payload stored policy data
           Hjwt Hst Hpol Hiss Hnd Hplain Hcover Hrun).
Defined.

Lemma redemption_verifies_witness :
  let s := snd (tokenCreate 1000 renewal state0) in
  exists data vdata,
    delegate 2000 token0 s = Delegate200 data /\
    verify (verifyProofRequest (dd_proof data)) = Verify200 vdata /\
    vd_recomputedVisible vdata = dp_visibleCommitment (dd_proof data) /\
    vd_verification vdata = dp_verification (dd_proof data).
Proof.
  intros s.
  destruct renewal_redemption
    as (payload & stored & policy & data & Hjwt & Hst & Hpol & Hrun & Hiss & Hnd
        & Hplain & _ & HdecD & HdecH).
  destruct (redemption_verifies 2000 token0 s payload stored policy data
              Hjwt Hst Hpol Hiss Hnd Hplain Hrun HdecD HdecH)
    as (vdata & Hverify & Hvis & Hmath & _).
  exists data, vdata. auto.
Defined.

Lemma verify_sound_witness :
  exists vdata d h f,
    verify handMade = Verify200 vdata /\
    deserializePoint (vq_recordCommitment handMade) = Ok d /\
    deserializePoint (vq_hiddenCommitment handMade) = Ok h /\
    osum (omap openingPoint (vq_visibleFields handMade)) = Some f /\
    (vd_valid vdata = true <-> d = point_add h f).
Proof.
  destruct (verify handMade) as [vdata | e] eqn:Hrun.
  - destruct (verify_sound handMade vdata) as (d & h & f & Hd & Hh & Hf & Hvalid).
    + repeat constructor; vm_compute; eauto.
    + exact Hrun.
    + exists vdata, d, h, f. auto.
  - vm_compute in Hrun. discriminate.
Defined.

Lemma verify_without_openings_witness :
  exists e, verify noOpenings = Verify500 e /\ e = TypeError.
Proof.
  destruct (verify_without_openings noOpenings eq_refl) as (e & Hrun & He).
  exists e. split; [exact Hrun |]. eapply He; run.
Defined.

End MoreExamples.

Module IntegerExamples.
Import Integers.

Lemma verifyPartition_binds_visible_witness :
  exists vr vr',
    verifyPartition (Some 12) (Some 5) (Some 7) = Ok vr /\
    verifyPartition (Some 12) (Some 5) (Some 8) = Ok vr' /\
    (valid vr' = true <-> 8 = 7).
Proof.
  do 2 eexists. split; [run |]. split; [run |].
  eapply (verifyPartition_binds_visible (E := curve) 12 5 7 8); [run | reflexivity | run].
Defined.

End IntegerExamples.

#[export] Instance residues_scalar_action : ScalarAction Residues.curve.
Proof.
  split; cbn; unfold Residues.q; intros.
  rewrite Z.mul_mod_idemp_l by lia. f_equal. lia.
Qed.

Module EquivocationExample.
Import Residues Scenarios.

Lemma commitment_opens_to_any_value_witness :
  let r' := (10 + (hashToScalar (fieldMessage "name" "Ahmed")
                   - hashToScalar (fieldMessage "name" "Sara")) * 378) mod ec_n in
  0 <= r' < ec_n /\
  pedersenCommitment "name" "Sara" r' = pedersenCommitment "name" "Ahmed" 10.
Proof.
  intros r'.
  destruct (commitment_opens_to_any_value "name" "Ahmed" "Sara" 10 378)
    as (Hr' & Hsame & _); [reflexivity |].
  split; [exact Hr' | exact Hsame].
Defined.

End EquivocationExample.
